(** * PhaseShifts.c: the Fourier coefficient generator

    A shallow embedding of [real_and_imaginary_arrays_generator]
    (src/source/PhaseShifts.c) and the properties its specification states.

    Numbers.  The C code computes on [double]; the specification speaks of
    "reals" and of tolerances.  The embedding is the exact-arithmetic reading:
    a [double] is a real number of [R], [cos], [sin], [tan], [fabs] and [M_PI]
    are the functions and the constant of the real library, and [pow (x, 2)],
    [pow (x, 3)] are [x ^ 2], [x ^ 3].  Rounding, infinities and NaN are not
    represented: the theorems say which formula the function computes over
    the sample positions it visits, and take those positions as given; the
    number of passes a [double] counter makes is not derived from this
    reading.  Where a property turns on rounding itself (the divisor of the
    Van der Waals term), the lines concerned are transcribed a second time
    in binary64, on the kernel's primitive floats.  The machine integers ([int n], [int j], the flags, the row
    count) are [Z]; the only integer division, [(N - 1) / 2], truncates
    towards zero as in C ([Z.quot]).

    Control.  The sample loop [for (ex = x_min; ex < x_max; ex += step)] runs
    on a real counter and need not terminate, so it takes fuel; the two
    integer loops are bounded and recurse on their number of iterations.
    Array accesses are checked: the C code has none out of range for a valid
    row count, and the model says so instead of assuming it. *)

From Stdlib Require Import Floats.
From Stdlib Require Import String Ascii.
From Stdlib Require Import Reals Lra Lia ZArith List Bool.
Import ListNotations.
Open Scope R_scope.

(** ** Outcomes of a call *)

Inductive result (A : Type) : Type :=
| Returns (a : A)
| OutOfFuel
| OutOfBounds.

Arguments Returns {A} a.
Arguments OutOfFuel {A}.
Arguments OutOfBounds {A}.

Definition bind {A B : Type} (c : result A) (k : A -> result B) : result B :=
  match c with
  | Returns a => k a
  | OutOfFuel => OutOfFuel
  | OutOfBounds => OutOfBounds
  end.

Notation "x <- c ;; k" := (bind c (fun x => k))
  (at level 61, c at next level, right associativity).

(** A call diverges when no amount of fuel makes it return. *)
Definition diverges {A : Type} (run : nat -> result A) : Prop :=
  forall fuel, run fuel = OutOfFuel.

(** ** Data model *)

(** Modelled from the spec: the declaration of the global parameter structure
    [sp] (BeamParams.h) is not part of the sources.  The fields are those the
    function reads; the geometry and the velocity are reals, the two flags
    and the row count are integers (the code compares them with [0] and [1]
    and uses the row count as an [int] loop bound). *)
Record simulation_parameters : Type := {
  tilt_angle : R;
  wedge_angle : R;
  slit_height : R;
  grating_thickness : R;
  grating_period : R;
  resolution : R;
  particle_velocity : R;
  account_gravity : Z;
  account_van_der_waals : Z;
  number_of_rows_fourier_coefficient_array : Z
}.

(** [double real_or_imaginary_array[]] *)
Definition array : Type := list R.

Fixpoint set_nth (i : nat) (v : R) (a : array) : array :=
  match a, i with
  | [], _ => []
  | _ :: t, O => v :: t
  | h :: t, S i' => h :: set_nth i' v t
  end.

Definition in_range (a : array) (i : Z) : bool :=
  ((0 <=? i) && (i <? Z.of_nat (length a)))%Z.

Definition load (a : array) (i : Z) : result R :=
  if in_range a i then Returns (nth (Z.to_nat i) a 0) else OutOfBounds.

Definition store (a : array) (i : Z) (v : R) : result array :=
  if in_range a i then Returns (set_nth (Z.to_nat i) v a) else OutOfBounds.

(** The [double] argument of a [printf]: a value, or the content of a local
    variable that was read before anything was assigned to it. *)
Inductive printed : Type :=
| Value (r : R)
| Indeterminate.

(** One [printf] call: its format string and its argument. *)
Definition printf_call : Type := (string * printed)%type.

Definition newline : string := String (ascii_of_nat 10) EmptyString.

Definition gravitational_format : string :=
  ("Gravitational phase shift: %.3e rad" ++ newline)%string.

Definition van_der_waals_format : string :=
  ("Van der Waals phase shift: %.3e rad" ++ newline)%string.

(** The values of [real_or_imaginary]. *)
Definition REAL : Z := 1.
Definition IMAGINARY : Z := 2.

(** ** The function, region by region *)

Definition gravity_acceleration : R := -9.8.
Definition C3 : R := 2.0453e-2.
Definition hbar : R := 6.58212e-13.

Definition Req_bool (x y : R) : bool :=
  if Req_dec_T x y then true else false.

Section Generator.

Variable sp : simulation_parameters.

(** Lines 62-90: [(x_min, x_max)]. *)
Definition integration_bounds : R * R :=
  if Rge_dec (tilt_angle sp) 0 then
    let x_min :=
      slit_height sp * (1 / resolution sp - cos (tilt_angle sp) / 2) in
    if Rle_dec (tilt_angle sp) (wedge_angle sp) then
      (x_min,
       (slit_height sp * cos (tilt_angle sp)) / 2
       - slit_height sp / resolution sp)
    else
      (x_min,
       slit_height sp * cos (tilt_angle sp) / 2
       - slit_height sp / resolution sp
       + grating_thickness sp * (tan (wedge_angle sp) - tan (tilt_angle sp)))
  else
    let x_max :=
      (slit_height sp * cos (tilt_angle sp) / 2)
      - slit_height sp / resolution sp in
    if Rle_dec (Rabs (tilt_angle sp)) (wedge_angle sp) then
      (- ((slit_height sp * cos (tilt_angle sp)) / 2)
       + slit_height sp / resolution sp,
       x_max)
    else
      (- ((slit_height sp * cos (tilt_angle sp)) / 2)
       + slit_height sp / resolution sp
       - grating_thickness sp * (tan (wedge_angle sp) - tan (tilt_angle sp)),
       x_max).

Definition x_min : R := fst integration_bounds.
Definition x_max : R := snd integration_bounds.

(** The increment of the sample loop, [sp.slit_height/sp.resolution]. *)
Definition sample_step : R := slit_height sp / resolution sp.

(** Lines 93-103: [phase_gravity] at [current_z_position]. *)
Definition gravitational_phase (current_z_position : R) : R :=
  let time_free_fall := current_z_position / particle_velocity sp in
  if (account_gravity sp =? 1)%Z then
    (2 * PI * gravity_acceleration * time_free_fall ^ 2) / grating_period sp
  else 0.

(** Lines 108-109: the distances to the two sides of the slit, in nm. *)
Definition distance_to_lower_side (ex : R) : R := Rabs ex * 1.0e9.
Definition distance_to_upper_side (ex : R) : R := Rabs (x_max - ex) * 1.0e9.

(** Lines 113-119: [phase_van_der_waals] at a sample, together with the
    divisors of the divisions that were evaluated to obtain it. *)
Definition van_der_waals_traced (ex : R) : R * list R :=
  let dl := distance_to_lower_side ex in
  let du := distance_to_upper_side ex in
  if (account_van_der_waals sp =? 0)%Z || Req_bool dl 0 || Req_bool du 0
  then (0, [])
  else
    let below := hbar * particle_velocity sp * dl ^ 3 in
    let above := hbar * particle_velocity sp * du ^ 3 in
    (- C3 * grating_thickness sp / below - C3 * grating_thickness sp / above,
     [below; above]).

Definition van_der_waals_phase (ex : R) : R := fst (van_der_waals_traced ex).

(** Line 111: [fc]. *)
Definition diffraction_phase (n : Z) (ex : R) : R :=
  2 * PI * IZR n * ex / grating_period sp.

(** [(sp.number_of_rows_fourier_coefficient_array-1)/2] *)
Definition half_width : Z :=
  ((number_of_rows_fourier_coefficient_array sp - 1) ÷ 2)%Z.

(** Line 122: [j]. *)
Definition order_index (n : Z) : Z := (n + half_width)%Z.

Section Call.

Variable real_or_imaginary : Z.
Variable phase_gravity : R.

(** Lines 107-131: one pass through the body of the sample loop.  The state
    is the array and the local [phase_van_der_waals]. *)
Definition sample_body (n : Z) (ex : R) (st : array * printed)
  : result (array * printed) :=
  let a := fst st in
  let fc := diffraction_phase n ex in
  let phase_van_der_waals := van_der_waals_phase ex in
  let j := order_index n in
  if (real_or_imaginary =? 1)%Z then
    v <- load a j ;;
    a' <- store a j (v + cos (phase_van_der_waals + fc + phase_gravity)) ;;
    Returns (a', Value phase_van_der_waals)
  else if (real_or_imaginary =? 2)%Z then
    v <- load a j ;;
    a' <- store a j (v + sin (phase_van_der_waals + fc + phase_gravity)) ;;
    Returns (a', Value phase_van_der_waals)
  else Returns (a, Value phase_van_der_waals).

(** Line 106: [for (double ex=x_min; ex<x_max; ex += step)]. *)
Fixpoint sample_loop (fuel : nat) (n : Z) (ex : R) (st : array * printed)
  : result (array * printed) :=
  if Rlt_dec ex x_max then
    match fuel with
    | O => OutOfFuel
    | S fuel' =>
        st' <- sample_body n ex st ;;
        sample_loop fuel' n (ex + sample_step) st'
    end
  else Returns st.

(** Line 105: [for (int n=-h; n<=h; n++)]; [remaining] is the number of
    values of [n] still to visit, [h + 1 - n]. *)
Fixpoint order_loop (fuel : nat) (remaining : nat) (n : Z)
  (st : array * printed) : result (array * printed) :=
  match remaining with
  | O => Returns st
  | S remaining' =>
      st' <- sample_loop fuel n x_min st ;;
      order_loop fuel remaining' (n + 1)%Z st'
  end.

End Call.

(** Lines 135-137: [for (int i=0; i<N; i++) a[i] = a[i]/sp.resolution]. *)
Fixpoint normalization_loop (remaining : nat) (i : Z) (a : array)
  : result array :=
  match remaining with
  | O => Returns a
  | S remaining' =>
      v <- load a i ;;
      a' <- store a i (v / resolution sp) ;;
      normalization_loop remaining' (i + 1)%Z a'
  end.

(** The whole function: the array after the call and what was printed.
    [fuel] bounds the number of samples taken for one diffraction order. *)
Definition real_and_imaginary_arrays_generator (fuel : nat)
  (real_or_imaginary_array : array) (real_or_imaginary : Z)
  (current_z_position : R) : result (array * list printf_call) :=
  let phase_gravity := gravitational_phase current_z_position in
  st <- order_loop real_or_imaginary phase_gravity fuel
          (Z.to_nat (half_width + 1 - - half_width)) (- half_width)%Z
          (real_or_imaginary_array, Indeterminate) ;;
  a <- normalization_loop
         (Z.to_nat (number_of_rows_fourier_coefficient_array sp)) 0%Z
         (fst st) ;;
  Returns
    (a,
     if (real_or_imaginary =? 1)%Z then
       [(gravitational_format, Value phase_gravity);
        (van_der_waals_format, snd st)]
     else []).

End Generator.

(** ** Notions the specification uses *)

(** The sample positions of a call: [ex], [ex + step], ... while the
    position is below [xmax].  The list is finite by construction; it exists
    exactly when the sample loop terminates. *)
Inductive samples (step xmax : R) : R -> list R -> Prop :=
| samples_stop (ex : R) :
    ~ ex < xmax -> samples step xmax ex []
| samples_next (ex : R) (xs : list R) :
    ex < xmax -> samples step xmax (ex + step) xs ->
    samples step xmax ex (ex :: xs).

Definition sample_positions (sp : simulation_parameters) (xs : list R)
  : Prop :=
  samples (sample_step sp) (x_max sp) (x_min sp) xs.

(** The sum of [f] over a list of positions. *)
Definition sum_over (f : R -> R) (xs : list R) : R :=
  fold_right (fun x s => f x + s) 0 xs.

(** What a mode accumulates: [cos] for 1, [sin] for 2, nothing otherwise. *)
Definition accumulator (real_or_imaginary : Z) : option (R -> R) :=
  if (real_or_imaginary =? 1)%Z then Some cos
  else if (real_or_imaginary =? 2)%Z then Some sin
  else None.

(** The content of the local [phase_van_der_waals] after the sample loop has
    visited [xs], starting from content [p]. *)
Definition phase_after (sp : simulation_parameters) (xs : list R)
  (p : printed) : printed :=
  fold_left (fun _ ex => Value (van_der_waals_phase sp ex)) xs p.

(** The same after the loop over the orders has made [remaining] passes. *)
Definition phase_after_orders (sp : simulation_parameters) (xs : list R)
  (remaining : nat) (p : printed) : printed :=
  match remaining with
  | O => p
  | S _ => phase_after sp xs p
  end.

(** The term one sample adds to the slot of order [n], for a gravitational
    phase [G]. *)
Definition accumulated_term (sp : simulation_parameters) (G : R)
  (trig : R -> R) (n : Z) (ex : R) : R :=
  trig (van_der_waals_phase sp ex + diffraction_phase sp n ex + G).

(** ** Example parameter bundles *)

Definition example_parameters (slit res velocity : R) (vdw rows : Z)
  : simulation_parameters :=
  {| tilt_angle := 0;
     wedge_angle := 0;
     slit_height := slit;
     grating_thickness := 1;
     grating_period := 1;
     resolution := res;
     particle_velocity := velocity;
     account_gravity := 0;
     account_van_der_waals := vdw;
     number_of_rows_fourier_coefficient_array := rows |}.

(** Two samples, [-1] and [0], between the bounds [-1] and [1]. *)
Definition wide : simulation_parameters := example_parameters 4 4 1 0 3.
(** An empty sample range: [x_min = 1/2], [x_max = -1/2]. *)
Definition narrow (rows : Z) : simulation_parameters :=
  example_parameters 1 1 1 0 rows.
(** A negative slit height: the range [-1/2 .. 1/2] is not empty and the
    step is [-1]. *)
Definition backwards : simulation_parameters :=
  example_parameters (-1) 1 1 0 1.

(** A bundle with the given tilt and wedge angles. *)
Definition tilted (tilt wedge : R) : simulation_parameters :=
  {| tilt_angle := tilt;
     wedge_angle := wedge;
     slit_height := 1;
     grating_thickness := 1;
     grating_period := 1;
     resolution := 4;
     particle_velocity := 1;
     account_gravity := 0;
     account_van_der_waals := 0;
     number_of_rows_fourier_coefficient_array := 3 |}.

(** A bundle with the gravitational correction on. *)
Definition falling : simulation_parameters :=
  {| tilt_angle := 0;
     wedge_angle := 0;
     slit_height := 4;
     grating_thickness := 1;
     grating_period := 1;
     resolution := 4;
     particle_velocity := 2;
     account_gravity := 1;
     account_van_der_waals := 0;
     number_of_rows_fourier_coefficient_array := 3 |}.

(** ** Notions for the further properties *)

(** The array the caller is to pass: one zero per row. *)
Definition zeros (sp : simulation_parameters) : array :=
  repeat 0 (Z.to_nat (number_of_rows_fourier_coefficient_array sp)).

(** The slot of diffraction order [n]. *)
Definition slot (sp : simulation_parameters) (a : array) (n : Z) : R :=
  nth (Z.to_nat (order_index sp n)) a 0.

(** The bundle with another value of the gravity flag. *)
Definition with_gravity (sp : simulation_parameters) (flag : Z)
  : simulation_parameters :=
  {| tilt_angle := tilt_angle sp;
     wedge_angle := wedge_angle sp;
     slit_height := slit_height sp;
     grating_thickness := grating_thickness sp;
     grating_period := grating_period sp;
     resolution := resolution sp;
     particle_velocity := particle_velocity sp;
     account_gravity := flag;
     account_van_der_waals := account_van_der_waals sp;
     number_of_rows_fourier_coefficient_array :=
       number_of_rows_fourier_coefficient_array sp |}.

(** Zero tilt, both corrections off, [rows] rows. *)
Definition plain (slit res : R) (rows : Z) : simulation_parameters :=
  example_parameters slit res 1 0 rows.

(** Four zero-tilt slits with four rows: a row count that is not odd. *)
Definition four_rows : simulation_parameters := example_parameters 4 4 1 0 4.
(** The same geometry with no row at all. *)
Definition no_rows : simulation_parameters := example_parameters 4 4 1 0 0.

(** The bundle with another tilt angle. *)
Definition with_tilt (sp : simulation_parameters) (tilt : R)
  : simulation_parameters :=
  {| tilt_angle := tilt;
     wedge_angle := wedge_angle sp;
     slit_height := slit_height sp;
     grating_thickness := grating_thickness sp;
     grating_period := grating_period sp;
     resolution := resolution sp;
     particle_velocity := particle_velocity sp;
     account_gravity := account_gravity sp;
     account_van_der_waals := account_van_der_waals sp;
     number_of_rows_fourier_coefficient_array :=
       number_of_rows_fourier_coefficient_array sp |}.

(** A call that stays inside its array: it returns an array of the same
    length, or is still running when the fuel is spent. *)
Definition in_bounds (a : array) (r : result (array * list printf_call))
  : Prop :=
  match r with
  | Returns (a', _) => length a' = length a
  | OutOfFuel => True
  | OutOfBounds => False
  end.

(** An empty sample range with a resolution other than [1]:
    [x_min = x_max = 0]. *)
Definition shut : simulation_parameters := example_parameters 1 2 1 0 3.

(** ** Lines 67, 70 and 108-119 in binary64 *)

#[local] Set Warnings "-inexact-float".







(** ** Integration bounds *)

Ltac bounds_cases sp :=
  unfold x_min, x_max, integration_bounds;
  destruct (Rge_dec (tilt_angle sp) 0);
  [ destruct (Rle_dec (tilt_angle sp) (wedge_angle sp))
  | destruct (Rle_dec (Rabs (tilt_angle sp)) (wedge_angle sp)) ];
  cbn [fst snd].

(** C2.  The bounds follow the four-way branch on the sign of the tilt and on
    the comparison of the tilt with the wedge angle: for a tilt [>= 0],
    [x_min = slit_height * (1/resolution - cos tilt / 2)] and [x_max] is
    [slit_height * cos tilt / 2 - slit_height / resolution], plus
    [grating_thickness * (tan wedge - tan tilt)] when the tilt exceeds the
    wedge angle; for a tilt [< 0], [x_max] is that first value and [x_min] is
    [- (slit_height * cos tilt / 2) + slit_height / resolution], minus the
    same wedge term when [|tilt|] exceeds the wedge angle. *)
Theorem integration_bounds_four_way (sp : simulation_parameters) :
  (tilt_angle sp >= 0 ->
     x_min sp
     = slit_height sp * (1 / resolution sp - cos (tilt_angle sp) / 2)
     /\ (tilt_angle sp <= wedge_angle sp ->
         x_max sp
         = slit_height sp * cos (tilt_angle sp) / 2
           - slit_height sp / resolution sp)
     /\ (wedge_angle sp < tilt_angle sp ->
         x_max sp
         = (slit_height sp * cos (tilt_angle sp) / 2
            - slit_height sp / resolution sp)
           + grating_thickness sp
             * (tan (wedge_angle sp) - tan (tilt_angle sp))))
  /\
  (tilt_angle sp < 0 ->
     x_max sp
     = slit_height sp * cos (tilt_angle sp) / 2
       - slit_height sp / resolution sp
     /\ (Rabs (tilt_angle sp) <= wedge_angle sp ->
         x_min sp
         = - (slit_height sp * cos (tilt_angle sp) / 2)
           + slit_height sp / resolution sp)
     /\ (wedge_angle sp < Rabs (tilt_angle sp) ->
         x_min sp
         = (- (slit_height sp * cos (tilt_angle sp) / 2)
            + slit_height sp / resolution sp)
           - grating_thickness sp
             * (tan (wedge_angle sp) - tan (tilt_angle sp)))).
Proof.
  split; intros Htilt; bounds_cases sp;
    repeat split; intros; try reflexivity; lra.
Qed.

Lemma integration_bounds_four_way_witness :
  (x_min (tilted 0 1) = 1 * (1 / 4 - cos 0 / 2)
   /\ x_max (tilted 0 1) = 1 * cos 0 / 2 - 1 / 4)
  /\ x_max (tilted 1 0)
     = (1 * cos 1 / 2 - 1 / 4) + 1 * (tan 0 - tan 1)
  /\ (x_max (tilted (-1) 2) = 1 * cos (-1) / 2 - 1 / 4
      /\ x_min (tilted (-1) 2) = - (1 * cos (-1) / 2) + 1 / 4)
  /\ x_min (tilted (-1) 0)
     = (- (1 * cos (-1) / 2) + 1 / 4) - 1 * (tan 0 - tan (-1)).
Proof.
  assert (Habs : Rabs (-1) = 1) by (rewrite Rabs_left; lra).
  split; [|split; [|split]].
  - destruct (integration_bounds_four_way (tilted 0 1)) as [Hpos _].
    destruct Hpos as (Hmin & Hmax & _); [cbn; lra|].
    split; [exact Hmin | apply Hmax; cbn; lra].
  - destruct (integration_bounds_four_way (tilted 1 0)) as [Hpos _].
    destruct Hpos as (_ & _ & Hmax); [cbn; lra|].
    apply Hmax. cbn. lra.
  - destruct (integration_bounds_four_way (tilted (-1) 2)) as [_ Hneg].
    destruct Hneg as (Hmax & Hmin & _); [cbn; lra|].
    split; [exact Hmax | apply Hmin; cbn; rewrite Habs; lra].
  - destruct (integration_bounds_four_way (tilted (-1) 0)) as [_ Hneg].
    destruct Hneg as (_ & _ & Hmin); [cbn; lra|].
    apply Hmin. cbn. rewrite Habs. lra.
Defined.

(** C8.  At zero tilt (and a wedge angle [>= 0]) the bounds are symmetric:
    [x_min] and [x_max] are opposite, so [|x_max + x_min|] is below every
    positive tolerance. *)
Theorem bounds_symmetric_at_zero_tilt (sp : simulation_parameters) :
  0 < resolution sp ->
  tilt_angle sp = 0 ->
  0 <= wedge_angle sp ->
  x_min sp = - x_max sp
  /\ forall epsilon, 0 < epsilon -> Rabs (x_max sp + x_min sp) < epsilon.
Proof.
  intros Hres Htilt Hwedge.
  assert (Hsym : x_min sp = - x_max sp).
  { bounds_cases sp; rewrite Htilt in *; try lra;
      rewrite cos_0; unfold Rdiv; ring. }
  split; [exact Hsym|].
  intros epsilon Heps. rewrite Hsym.
  replace (x_max sp + - x_max sp) with 0 by ring.
  rewrite Rabs_R0. exact Heps.
Qed.

Lemma bounds_symmetric_at_zero_tilt_witness :
  x_min wide = - x_max wide
  /\ forall epsilon, 0 < epsilon -> Rabs (x_max wide + x_min wide) < epsilon.
Proof.
  apply (bounds_symmetric_at_zero_tilt wide).
  - cbn. lra.
  - reflexivity.
  - cbn. lra.
Defined.

(** ** Order-to-index mapping *)

Lemma half_width_odd (sp : simulation_parameters) :
  Z.odd (number_of_rows_fourier_coefficient_array sp) = true ->
  (1 <= number_of_rows_fourier_coefficient_array sp)%Z ->
  (2 * half_width sp = number_of_rows_fourier_coefficient_array sp - 1)%Z.
Proof.
  intros Hodd Hpos. unfold half_width.
  apply Z.odd_spec in Hodd. destruct Hodd as [k Hk].
  rewrite Z.quot_div_nonneg by lia.
  replace (number_of_rows_fourier_coefficient_array sp - 1)%Z
    with (k * 2)%Z by lia.
  rewrite Z.div_mul by lia. lia.
Qed.

(** C5.  For an odd row count [N >= 1], [n |-> n + (N-1)/2] is a bijection
    from the orders [-(N-1)/2 .. (N-1)/2] onto the indices [0 .. N-1]: it
    maps every order into the index range, it is injective, and every index
    is the image of an order. *)
Theorem order_index_bijection (sp : simulation_parameters) :
  let N := number_of_rows_fourier_coefficient_array sp in
  let h := half_width sp in
  Z.odd N = true ->
  (1 <= N)%Z ->
  (forall n, (- h <= n <= h)%Z -> (0 <= order_index sp n <= N - 1)%Z)
  /\ (forall n m, (- h <= n <= h)%Z -> (- h <= m <= h)%Z ->
        order_index sp n = order_index sp m -> n = m)
  /\ (forall j, (0 <= j <= N - 1)%Z ->
        exists n, (- h <= n <= h)%Z /\ order_index sp n = j).
Proof.
  intros N h Hodd Hpos.
  pose proof (half_width_odd sp Hodd Hpos) as Hh. fold N h in Hh.
  unfold order_index. fold h.
  repeat split; try lia.
  intros j Hj. exists (j - h)%Z. lia.
Qed.

Lemma order_index_bijection_witness :
  (forall n, (- 1 <= n <= 1)%Z -> (0 <= order_index wide n <= 3 - 1)%Z)
  /\ (forall n m, (- 1 <= n <= 1)%Z -> (- 1 <= m <= 1)%Z ->
        order_index wide n = order_index wide m -> n = m)
  /\ (forall j, (0 <= j <= 3 - 1)%Z ->
        exists n, (- 1 <= n <= 1)%Z /\ order_index wide n = j).
Proof.
  apply (order_index_bijection wide).
  - reflexivity.
  - cbn. lia.
Defined.

(** ** Arrays *)

Lemma set_nth_length (i : nat) (v : R) (a : array) :
  length (set_nth i v a) = length a.
Proof.
  revert i; induction a as [|h t IH]; intros [|i]; simpl; auto.
Qed.

Lemma nth_set_nth_eq (i : nat) (v : R) (a : array) :
  (i < length a)%nat -> nth i (set_nth i v a) 0 = v.
Proof.
  revert i; induction a as [|h t IH]; intros [|i] Hi; simpl in *;
    try lia; auto.
  apply IH; lia.
Qed.

Lemma nth_set_nth_neq (i k : nat) (v : R) (a : array) :
  i <> k -> nth k (set_nth i v a) 0 = nth k a 0.
Proof.
  revert i k; induction a as [|h t IH]; intros [|i] [|k] Hik; simpl;
    try reflexivity; try congruence.
  apply IH; congruence.
Qed.

Lemma in_range_spec (a : array) (i : Z) :
  in_range a i = true <-> (0 <= i < Z.of_nat (length a))%Z.
Proof.
  unfold in_range. rewrite andb_true_iff, Z.leb_le, Z.ltb_lt. tauto.
Qed.

Lemma in_range_set_nth (a : array) (i : Z) (k : nat) (v : R) :
  in_range (set_nth k v a) i = in_range a i.
Proof. unfold in_range. rewrite set_nth_length. reflexivity. Qed.

(** ** The sample loop *)

Lemma accumulator_cases (mode : Z) :
  (mode = REAL /\ accumulator mode = Some cos)
  \/ (mode = IMAGINARY /\ accumulator mode = Some sin)
  \/ (mode <> REAL /\ mode <> IMAGINARY /\ accumulator mode = None).
Proof.
  unfold accumulator, REAL, IMAGINARY.
  destruct (Z.eqb_spec mode 1) as [->|H1]; [left; auto|].
  destruct (Z.eqb_spec mode 2) as [->|H2]; [right; left; auto|].
  right; right; auto.
Qed.

Section Loops.

Variable sp : simulation_parameters.
Variable mode : Z.
Variable G : R.

Lemma sample_body_accumulates (trig : R -> R) (n : Z) (ex : R)
  (a : array) (p : printed) :
  accumulator mode = Some trig ->
  in_range a (order_index sp n) = true ->
  sample_body sp mode G n ex (a, p)
  = Returns
      (set_nth (Z.to_nat (order_index sp n))
         (nth (Z.to_nat (order_index sp n)) a 0 + accumulated_term sp G trig n ex) a,
       Value (van_der_waals_phase sp ex)).
Proof.
  intros Hacc Hj. unfold sample_body, accumulator in *. cbn [fst].
  destruct (mode =? 1)%Z.
  - injection Hacc as <-. unfold load, store. rewrite Hj. reflexivity.
  - destruct (mode =? 2)%Z; [|discriminate].
    injection Hacc as <-. unfold load, store. rewrite Hj. reflexivity.
Qed.

Lemma sample_body_skips (n : Z) (ex : R) (a : array) (p : printed) :
  accumulator mode = None ->
  sample_body sp mode G n ex (a, p)
  = Returns (a, Value (van_der_waals_phase sp ex)).
Proof.
  intros Hacc. unfold sample_body, accumulator in *.
  destruct (mode =? 1)%Z; [discriminate|].
  destruct (mode =? 2)%Z; [discriminate|]. reflexivity.
Qed.

Lemma sample_loop_empty (fuel : nat) (n : Z) (ex : R)
  (st : array * printed) :
  ~ ex < x_max sp -> sample_loop sp mode G fuel n ex st = Returns st.
Proof.
  intros Hge. destruct fuel; simpl;
    destruct (Rlt_dec ex (x_max sp)); tauto.
Qed.

Lemma sample_loop_accumulates (trig : R -> R) (n : Z) :
  accumulator mode = Some trig ->
  forall ex xs, samples (sample_step sp) (x_max sp) ex xs ->
  forall fuel a p,
    (length xs <= fuel)%nat ->
    in_range a (order_index sp n) = true ->
    sample_loop sp mode G fuel n ex (a, p)
    = Returns
        (set_nth (Z.to_nat (order_index sp n))
           (nth (Z.to_nat (order_index sp n)) a 0
            + sum_over (accumulated_term sp G trig n) xs) a,
         phase_after sp xs p).
Proof.
  intros Hacc ex xs Hxs.
  induction Hxs as [ex Hstop | ex xs Hlt Hxs IH]; intros fuel a p Hfuel Hj.
  - rewrite sample_loop_empty by assumption. simpl.
    rewrite Rplus_0_r. f_equal. f_equal.
    apply in_range_spec in Hj.
    apply nth_ext with (d := 0) (d' := 0).
    + symmetry. apply set_nth_length.
    + intros k Hk.
      destruct (Nat.eq_dec (Z.to_nat (order_index sp n)) k) as [<-|Hne].
      * symmetry. apply nth_set_nth_eq. lia.
      * symmetry. apply nth_set_nth_neq. assumption.
  - destruct fuel as [|fuel]; [simpl in Hfuel; lia|].
    simpl. destruct (Rlt_dec ex (x_max sp)); [|contradiction].
    rewrite (sample_body_accumulates trig) by assumption.
    cbn [bind].
    rewrite IH;
      [| simpl in Hfuel; lia | rewrite in_range_set_nth; assumption].
    apply in_range_spec in Hj. f_equal. f_equal.
    apply nth_ext with (d := 0) (d' := 0).
    + rewrite !set_nth_length. reflexivity.
    + intros k _.
      destruct (Nat.eq_dec (Z.to_nat (order_index sp n)) k) as [<-|Hne].
      * rewrite !nth_set_nth_eq by (rewrite ?set_nth_length; lia).
        ring.
      * rewrite !nth_set_nth_neq by assumption. reflexivity.
Qed.

Lemma sample_loop_skips (n : Z) :
  accumulator mode = None ->
  forall ex xs, samples (sample_step sp) (x_max sp) ex xs ->
  forall fuel a p,
    (length xs <= fuel)%nat ->
    sample_loop sp mode G fuel n ex (a, p)
    = Returns (a, phase_after sp xs p).
Proof.
  intros Hacc ex xs Hxs.
  induction Hxs as [ex Hstop | ex xs Hlt Hxs IH]; intros fuel a p Hfuel.
  - rewrite sample_loop_empty by assumption. reflexivity.
  - destruct fuel as [|fuel]; [simpl in Hfuel; lia|].
    simpl. destruct (Rlt_dec ex (x_max sp)); [|contradiction].
    rewrite sample_body_skips by assumption. cbn [bind].
    rewrite IH by (simpl in Hfuel; lia). reflexivity.
Qed.

(** A step that does not advance never leaves a non-empty range. *)
Lemma sample_loop_stuck (n : Z) :
  accumulator mode = None ->
  sample_step sp <= 0 ->
  forall fuel ex st,
    ex < x_max sp -> sample_loop sp mode G fuel n ex st = OutOfFuel.
Proof.
  intros Hacc Hstep. induction fuel as [|fuel IH]; intros ex [a p] Hlt;
    simpl; destruct (Rlt_dec ex (x_max sp)); try contradiction.
  - reflexivity.
  - rewrite sample_body_skips by assumption. cbn [bind].
    apply IH. lra.
Qed.

End Loops.

(** ** The local [phase_van_der_waals] *)

Lemma phase_after_cons (sp : simulation_parameters) (x : R) (xs : list R)
  (p q : printed) :
  phase_after sp (x :: xs) p = phase_after sp (x :: xs) q.
Proof. reflexivity. Qed.

Lemma phase_after_idempotent (sp : simulation_parameters) (xs : list R)
  (p : printed) :
  phase_after sp xs (phase_after sp xs p) = phase_after sp xs p.
Proof.
  destruct xs as [|x xs]; [reflexivity|]. apply phase_after_cons.
Qed.

Lemma phase_after_last (sp : simulation_parameters) (xs : list R) :
  phase_after sp xs Indeterminate
  = match xs with
    | [] => Indeterminate
    | _ :: _ => Value (van_der_waals_phase sp (last xs 0))
    end.
Proof.
  destruct xs as [|x xs]; [reflexivity|].
  unfold phase_after. cbn [fold_left].
  generalize x. induction xs as [|y ys IH]; intros x0; [reflexivity|].
  cbn [fold_left]. rewrite IH. reflexivity.
Qed.

(** ** The loop over the diffraction orders *)

Section Orders.

Variable sp : simulation_parameters.
Variable mode : Z.
Variable G : R.
Variable xs : list R.
Variable fuel : nat.

Hypothesis positions : sample_positions sp xs.
Hypothesis enough : (length xs <= fuel)%nat.

Lemma order_loop_accumulates (trig : R -> R) :
  accumulator mode = Some trig ->
  forall remaining n a p,
    (0 <= order_index sp n)%Z ->
    (order_index sp n + Z.of_nat remaining <= Z.of_nat (length a))%Z ->
    exists a',
      order_loop sp mode G fuel remaining n (a, p)
      = Returns (a', phase_after_orders sp xs remaining p)
      /\ length a' = length a
      /\ (forall k, (n <= k < n + Z.of_nat remaining)%Z ->
            nth (Z.to_nat (order_index sp k)) a' 0
            = nth (Z.to_nat (order_index sp k)) a 0
              + sum_over (accumulated_term sp G trig k) xs)
      /\ (forall i, (Z.of_nat i < order_index sp n)%Z ->
            nth i a' 0 = nth i a 0).
Proof.
  intros Hacc. induction remaining as [|remaining IH]; intros n a p Hlo Hhi.
  - exists a. simpl. repeat split; auto. intros k Hk. lia.
  - cbn [order_loop].
    rewrite (sample_loop_accumulates sp mode G trig n Hacc _ _ positions)
      by (try assumption; apply in_range_spec; lia).
    cbn [bind].
    set (j := Z.to_nat (order_index sp n)).
    set (a1 := set_nth j (nth j a 0 + sum_over (accumulated_term sp G trig n) xs) a).
    assert (Hlen1 : length a1 = length a) by apply set_nth_length.
    assert (Hnext : order_index sp (n + 1) = (order_index sp n + 1)%Z)
      by (unfold order_index; lia).
    destruct (IH (n + 1)%Z a1 (phase_after sp xs p))
      as (a' & Hrun & Hlen & Hupd & Hlow);
      [lia | rewrite Hlen1; lia |].
    exists a'. split; [|split; [|split]].
    + etransitivity; [exact Hrun|]. f_equal. f_equal.
      destruct remaining; cbn [phase_after_orders];
        [reflexivity | apply phase_after_idempotent].
    + congruence.
    + intros k Hk. destruct (Z.eq_dec k n) as [->|Hkn].
      * rewrite (Hlow (Z.to_nat (order_index sp n))) by lia.
        subst a1 j. apply nth_set_nth_eq. lia.
      * rewrite Hupd by lia. subst a1.
        rewrite nth_set_nth_neq; [reflexivity|].
        subst j. unfold order_index in *. lia.
    + intros i Hi. rewrite Hlow by lia. subst a1.
      apply nth_set_nth_neq. subst j. lia.
Qed.

Lemma order_loop_skips :
  accumulator mode = None ->
  forall remaining n a p,
    order_loop sp mode G fuel remaining n (a, p)
    = Returns (a, phase_after_orders sp xs remaining p).
Proof.
  intros Hacc. induction remaining as [|remaining IH]; intros n a p.
  - reflexivity.
  - cbn [order_loop].
    rewrite (sample_loop_skips sp mode G n Hacc _ _ positions)
      by assumption.
    cbn [bind]. rewrite IH. f_equal. f_equal.
    destruct remaining; cbn [phase_after_orders];
      [reflexivity | apply phase_after_idempotent].
Qed.

End Orders.

(** With an empty sample range the loop over the orders changes nothing,
    whatever the mode and the fuel. *)
Lemma order_loop_empty_range (sp : simulation_parameters) (mode : Z) (G : R)
  (fuel remaining : nat) (n : Z) (st : array * printed) :
  ~ x_min sp < x_max sp ->
  order_loop sp mode G fuel remaining n st = Returns st.
Proof.
  intros Hempty. revert n. induction remaining as [|remaining IH];
    intros n; [reflexivity|].
  cbn [order_loop]. rewrite sample_loop_empty by assumption.
  cbn [bind]. apply IH.
Qed.

(** With a step that does not advance and a non-empty range, a mode that
    accumulates nothing never gets out of the first diffraction order. *)
Lemma order_loop_stuck (sp : simulation_parameters) (mode : Z) (G : R)
  (fuel remaining : nat) (n : Z) (st : array * printed) :
  accumulator mode = None ->
  sample_step sp <= 0 ->
  x_min sp < x_max sp ->
  order_loop sp mode G fuel (S remaining) n st = OutOfFuel.
Proof.
  intros Hacc Hstep Hrange. cbn [order_loop].
  rewrite sample_loop_stuck by assumption. reflexivity.
Qed.

(** ** The normalization loop *)

Lemma normalization_loop_divides (sp : simulation_parameters) :
  forall remaining i a,
    (i + remaining <= length a)%nat ->
    exists a',
      normalization_loop sp remaining (Z.of_nat i) a = Returns a'
      /\ length a' = length a
      /\ forall k,
           nth k a' 0
           = if (i <=? k)%nat && (k <? i + remaining)%nat
             then nth k a 0 / resolution sp
             else nth k a 0.
Proof.
  induction remaining as [|remaining IH]; intros i a Hlen.
  - exists a. repeat split. intros k.
    destruct (Nat.leb_spec i k), (Nat.ltb_spec k (i + 0)); simpl;
      try reflexivity; lia.
  - cbn [normalization_loop]. unfold load, store.
    assert (Hin : in_range a (Z.of_nat i) = true)
      by (apply in_range_spec; lia).
    rewrite Hin. cbn [bind]. rewrite Nat2Z.id.
    set (a1 := set_nth i (nth i a 0 / resolution sp) a).
    assert (Hlen1 : length a1 = length a) by apply set_nth_length.
    replace (Z.of_nat i + 1)%Z with (Z.of_nat (S i)) by lia.
    destruct (IH (S i) a1) as (a' & Hrun & Hlen' & Hnth);
      [rewrite Hlen1; lia|].
    exists a'. split; [exact Hrun|]. split; [congruence|].
    intros k. rewrite Hnth. subst a1.
    destruct (Nat.eq_dec i k) as [<-|Hne].
    + rewrite nth_set_nth_eq by lia.
      destruct (Nat.leb_spec (S i) i), (Nat.ltb_spec i (S i + remaining)),
        (Nat.leb_spec i i), (Nat.ltb_spec i (i + S remaining)); simpl;
        try reflexivity; lia.
    + rewrite nth_set_nth_neq by assumption.
      destruct (Nat.leb_spec (S i) k), (Nat.ltb_spec k (S i + remaining)),
        (Nat.leb_spec i k), (Nat.ltb_spec k (i + S remaining)); simpl;
        try reflexivity; lia.
Qed.

Lemma normalization_loop_map (sp : simulation_parameters) (a : array) :
  normalization_loop sp (length a) 0%Z a
  = Returns (map (fun v => v / resolution sp) a).
Proof.
  destruct (normalization_loop_divides sp (length a) 0 a)
    as (a' & Hrun & Hlen & Hnth); [lia|].
  change (Z.of_nat 0) with 0%Z in Hrun. rewrite Hrun. f_equal.
  apply nth_ext with (d := 0) (d' := 0).
  - rewrite length_map. exact Hlen.
  - intros k Hk. rewrite Hnth.
    replace ((0 <=? k)%nat && (k <? 0 + length a)%nat) with true.
    + rewrite (nth_indep (map (fun v => v / resolution sp) a) 0
                 ((fun v => v / resolution sp) 0))
        by (rewrite length_map; congruence).
      symmetry. exact (map_nth (fun v => v / resolution sp) a 0 k).
    + symmetry. apply andb_true_iff. split;
        [apply Nat.leb_le | apply Nat.ltb_lt]; lia.
Qed.

(** ** Sample positions *)

Lemma samples_unique (step xmax : R) (ex : R) (xs ys : list R) :
  samples step xmax ex xs -> samples step xmax ex ys -> xs = ys.
Proof.
  intros Hxs. revert ys.
  induction Hxs as [ex Hstop | ex xs Hlt Hxs IH]; intros ys Hys;
    inversion Hys; subst; try contradiction; [reflexivity|].
  f_equal. apply IH. assumption.
Qed.

Lemma sample_positions_empty (sp : simulation_parameters) :
  x_min sp >= x_max sp -> sample_positions sp [].
Proof. intros Hge. apply samples_stop. lra. Qed.

(** ** The row count *)

Lemma half_width_bounds (sp : simulation_parameters) :
  (1 <= number_of_rows_fourier_coefficient_array sp)%Z ->
  (0 <= half_width sp)%Z
  /\ (2 * half_width sp
      <= number_of_rows_fourier_coefficient_array sp - 1)%Z.
Proof.
  intros Hpos. unfold half_width.
  rewrite Z.quot_div_nonneg by lia.
  pose proof (Z.div_pos
                (number_of_rows_fourier_coefficient_array sp - 1) 2).
  pose proof (Z.mul_div_le
                (number_of_rows_fourier_coefficient_array sp - 1) 2).
  lia.
Qed.

(** For a row count that fits in an [int], so do the loop bounds, the
    counter [n] (which ends at [h + 1]) and every index [j]: the integer
    arithmetic of the function does not overflow. *)
Lemma machine_integers_in_range (sp : simulation_parameters) :
  let N := number_of_rows_fourier_coefficient_array sp in
  let h := half_width sp in
  (1 <= N <= 2147483647)%Z ->
  (- 2147483648 <= - h)%Z
  /\ (h + 1 <= 2147483647)%Z
  /\ forall n, (- h <= n <= h)%Z ->
       (0 <= order_index sp n < N)%Z.
Proof.
  intros N h HN.
  destruct (half_width_bounds sp) as [H0 H1]; [apply HN|].
  fold N h in H0, H1. unfold order_index. fold h.
  repeat split; lia.
Qed.

(** ** The whole call *)

Section Whole_call.

Variable sp : simulation_parameters.
Variable a : array.
Variable mode : Z.
Variable z : R.
Variable xs : list R.
Variable fuel : nat.

Let N := number_of_rows_fourier_coefficient_array sp.
Let G := gravitational_phase sp z.

Hypothesis rows : (1 <= N)%Z.
Hypothesis slots : length a = Z.to_nat N.
Hypothesis positions : sample_positions sp xs.
Hypothesis enough : (length xs <= fuel)%nat.

(** A mode that accumulates: every order's slot receives its sum, the
    normalization divides every slot, and the diagnostics are those of the
    mode. *)
Lemma call_accumulates (trig : R -> R) :
  accumulator mode = Some trig ->
  exists a1,
    real_and_imaginary_arrays_generator sp fuel a mode z
    = Returns
        (map (fun v => v / resolution sp) a1,
         if (mode =? 1)%Z then
           [(gravitational_format, Value G);
            (van_der_waals_format, phase_after sp xs Indeterminate)]
         else [])
    /\ length a1 = length a
    /\ forall n, (- half_width sp <= n <= half_width sp)%Z ->
         nth (Z.to_nat (order_index sp n)) a1 0
         = nth (Z.to_nat (order_index sp n)) a 0
           + sum_over (accumulated_term sp G trig n) xs.
Proof.
  intros Hacc.
  destruct (half_width_bounds sp rows) as [Hh0 Hh1]. fold N in Hh1.
  destruct (order_loop_accumulates sp mode G xs fuel positions enough
              trig Hacc
              (Z.to_nat (half_width sp + 1 - - half_width sp))
              (- half_width sp)%Z a Indeterminate)
    as (a1 & Hrun & Hlen & Hupd & _).
  { unfold order_index. lia. }
  { unfold order_index. lia. }
  exists a1. split; [|split; [exact Hlen|]].
  - unfold real_and_imaginary_arrays_generator. fold G.
    etransitivity.
    { apply f_equal2; [exact Hrun | reflexivity]. }
    cbn [bind fst snd].
    replace (Z.to_nat (number_of_rows_fourier_coefficient_array sp))
      with (length a1) by (fold N; congruence).
    rewrite normalization_loop_map. cbn [bind].
    replace (Z.to_nat (half_width sp + 1 - - half_width sp))
      with (S (Z.to_nat (2 * half_width sp))) by lia.
    reflexivity.
  - intros n Hn. apply Hupd. lia.
Qed.

(** A mode that does not accumulate: only the normalization touches the
    array, and nothing is printed. *)
Lemma call_skips :
  accumulator mode = None ->
  real_and_imaginary_arrays_generator sp fuel a mode z
  = Returns (map (fun v => v / resolution sp) a, []).
Proof.
  intros Hacc. unfold real_and_imaginary_arrays_generator.
  rewrite (order_loop_skips sp mode _ xs fuel positions enough Hacc).
  cbn [bind fst snd].
  replace (Z.to_nat (number_of_rows_fourier_coefficient_array sp))
    with (length a) by (fold N; congruence).
  rewrite normalization_loop_map. cbn [bind].
  unfold accumulator in Hacc.
  destruct (mode =? 1)%Z; [discriminate | reflexivity].
Qed.

End Whole_call.

Lemma nth_map_divide (r : R) (a : array) (k : nat) :
  (k < length a)%nat ->
  nth k (map (fun v => v / r) a) 0 = nth k a 0 / r.
Proof.
  intros Hk.
  rewrite (nth_indep (map (fun v => v / r) a) 0 ((fun v => v / r) 0))
    by (rewrite length_map; assumption).
  exact (map_nth (fun v => v / r) a 0 k).
Qed.

Lemma map_divide_zeros (r : R) (k : nat) :
  map (fun v => v / r) (repeat 0 k) = repeat 0 k.
Proof.
  induction k as [|k IH]; [reflexivity|].
  simpl. rewrite IH. f_equal. unfold Rdiv. ring.
Qed.

(** ** The example bundles *)

Lemma example_bounds (slit res velocity : R) (vdw rows : Z) :
  x_min (example_parameters slit res velocity vdw rows)
  = slit * (1 / res - 1 / 2)
  /\ x_max (example_parameters slit res velocity vdw rows)
     = slit / 2 - slit / res.
Proof.
  bounds_cases (example_parameters slit res velocity vdw rows);
    cbn [tilt_angle wedge_angle slit_height resolution example_parameters]
      in *;
    try lra; rewrite cos_0; split; unfold Rdiv; ring.
Qed.

Lemma wide_bounds (velocity : R) (vdw rows : Z) :
  x_min (example_parameters 4 4 velocity vdw rows) = -1
  /\ x_max (example_parameters 4 4 velocity vdw rows) = 1
  /\ sample_step (example_parameters 4 4 velocity vdw rows) = 1.
Proof.
  destruct (example_bounds 4 4 velocity vdw rows) as [-> ->].
  unfold sample_step. cbn [slit_height resolution example_parameters].
  repeat split; lra.
Qed.

Lemma wide_positions (velocity : R) (vdw rows : Z) :
  sample_positions (example_parameters 4 4 velocity vdw rows) [-1; 0].
Proof.
  unfold sample_positions.
  destruct (wide_bounds velocity vdw rows) as (-> & -> & ->).
  apply samples_next; [lra|].
  replace (-1 + 1) with 0 by lra.
  apply samples_next; [lra|].
  apply samples_stop. lra.
Qed.

Lemma narrow_range (rows : Z) :
  x_min (narrow rows) >= x_max (narrow rows).
Proof.
  unfold narrow. destruct (example_bounds 1 1 1 0 rows) as [-> ->]. lra.
Qed.

Lemma backwards_range :
  x_min backwards < x_max backwards /\ sample_step backwards <= 0.
Proof.
  unfold backwards. destruct (example_bounds (-1) 1 1 0 1) as [-> ->].
  unfold sample_step. cbn [slit_height resolution example_parameters].
  split; lra.
Qed.

(** ** Fourier coefficients *)



(** Once the loop over the orders has returned, the rest of the call is the
    normalization and the diagnostics. *)
Lemma call_after_orders (sp : simulation_parameters) (fuel : nat)
  (a : array) (mode : Z) (z : R) (a1 : array) (p : printed) :
  order_loop sp mode (gravitational_phase sp z) fuel
    (Z.to_nat (half_width sp + 1 - - half_width sp)) (- half_width sp)%Z
    (a, Indeterminate)
  = Returns (a1, p) ->
  length a1 = Z.to_nat (number_of_rows_fourier_coefficient_array sp) ->
  real_and_imaginary_arrays_generator sp fuel a mode z
  = Returns
      (map (fun v => v / resolution sp) a1,
       if (mode =? 1)%Z then
         [(gravitational_format, Value (gravitational_phase sp z));
          (van_der_waals_format, p)]
       else []).
Proof.
  intros Hrun Hlen. unfold real_and_imaginary_arrays_generator.
  etransitivity.
  { apply f_equal2; [exact Hrun | reflexivity]. }
  cbn [bind fst snd]. rewrite <- Hlen.
  rewrite normalization_loop_map. reflexivity.
Qed.

(** ** Degenerate sample range *)


(** C6.  When the derived bounds satisfy [x_min >= x_max], a call
    accumulates nothing: the loops hand the array back as they received it,
    whatever it holds.  The division still takes place: the array returned
    is the array received with every slot divided by the resolution.  On an
    array of zeros that is an array of zeros. *)
Theorem empty_range_leaves_zeros (sp : simulation_parameters) (a : array)
  (mode : Z) (z : R) (fuel : nat) :
  let N := number_of_rows_fourier_coefficient_array sp in
  x_min sp >= x_max sp ->
  length a = Z.to_nat N ->
  order_loop sp mode (gravitational_phase sp z) fuel
    (Z.to_nat (half_width sp + 1 - - half_width sp)) (- half_width sp)%Z
    (a, Indeterminate)
  = Returns (a, Indeterminate)
  /\ (exists out,
        real_and_imaginary_arrays_generator sp fuel a mode z
        = Returns (map (fun v => v / resolution sp) a, out))
  /\ (a = repeat 0 (Z.to_nat N) ->
      map (fun v => v / resolution sp) a = repeat 0 (Z.to_nat N)).
Proof.
  intros N Hempty Hslots.
  assert (Hloops :
            order_loop sp mode (gravitational_phase sp z) fuel
              (Z.to_nat (half_width sp + 1 - - half_width sp))
              (- half_width sp)%Z (a, Indeterminate)
            = Returns (a, Indeterminate))
    by (apply order_loop_empty_range; lra).
  split; [exact Hloops|]. split.
  - eexists. apply (call_after_orders sp fuel a mode z a Indeterminate).
    + exact Hloops.
    + exact Hslots.
  - intros ->. apply map_divide_zeros.
Qed.

Lemma empty_range_leaves_zeros_witness :
  (exists out,
     real_and_imaginary_arrays_generator shut 0 [2; 4; 6] IMAGINARY 5
     = Returns ([2 / 2; 4 / 2; 6 / 2], out))
  /\ (exists out,
        real_and_imaginary_arrays_generator shut 0 [0; 0; 0] IMAGINARY 5
        = Returns ([0; 0; 0], out)).
Proof.
  assert (Hshut : x_min shut >= x_max shut).
  { unfold shut. destruct (example_bounds 1 2 1 0 3) as [-> ->]. lra. }
  destruct (empty_range_leaves_zeros shut [2; 4; 6] IMAGINARY 5 0 Hshut
              eq_refl) as (_ & Hdivided & _).
  destruct (empty_range_leaves_zeros shut [0; 0; 0] IMAGINARY 5 0 Hshut
              eq_refl) as (_ & [out Hrun] & Hzeros).
  split; [exact Hdivided|].
  exists out. rewrite Hrun. do 2 f_equal. apply Hzeros. reflexivity.
Defined.

(** ** Diagnostics *)

(** C10.  With mode REAL and bounds that make the sample loop run zero
    times ([x_min >= x_max]), the Van der Waals line prints the local
    [phase_van_der_waals] although nothing was ever assigned to it. *)
Theorem unassigned_phase_is_printed (sp : simulation_parameters)
  (a : array) (z : R) (fuel : nat) :
  x_min sp >= x_max sp ->
  length a = Z.to_nat (number_of_rows_fourier_coefficient_array sp) ->
  real_and_imaginary_arrays_generator sp fuel a REAL z
  = Returns
      (map (fun v => v / resolution sp) a,
       [(gravitational_format, Value (gravitational_phase sp z));
        (van_der_waals_format, Indeterminate)]).
Proof.
  intros Hempty Hlen.
  apply (call_after_orders sp fuel a REAL z a Indeterminate).
  - apply order_loop_empty_range. lra.
  - exact Hlen.
Qed.

Lemma unassigned_phase_is_printed_witness :
  real_and_imaginary_arrays_generator (narrow 3) 7 [2; 4; 6] REAL 1
  = Returns
      (map (fun v => v / 1) [2; 4; 6],
       [(gravitational_format, Value (gravitational_phase (narrow 3) 1));
        (van_der_waals_format, Indeterminate)]).
Proof.
  apply (unassigned_phase_is_printed (narrow 3) [2; 4; 6] 1 7).
  - apply narrow_range.
  - reflexivity.
Defined.

(** What a returning call prints, for [N >= 1] slots: in mode REAL exactly
    two lines, the gravitational phase of the call and the content of
    [phase_van_der_waals], which is the Van der Waals phase at the last
    sample position when there is one and was never assigned otherwise; in
    every other mode nothing. *)
Theorem diagnostic_lines (sp : simulation_parameters) (a : array)
  (mode : Z) (z : R) (xs : list R) (fuel : nat) :
  (1 <= number_of_rows_fourier_coefficient_array sp)%Z ->
  length a = Z.to_nat (number_of_rows_fourier_coefficient_array sp) ->
  sample_positions sp xs ->
  (length xs <= fuel)%nat ->
  exists a',
    real_and_imaginary_arrays_generator sp fuel a mode z
    = Returns
        (a',
         if (mode =? REAL)%Z then
           [(gravitational_format, Value (gravitational_phase sp z));
            (van_der_waals_format,
             match xs with
             | [] => Indeterminate
             | _ :: _ => Value (van_der_waals_phase sp (last xs 0))
             end)]
         else []).
Proof.
  intros Hrows Hslots Hxs Hfuel. rewrite <- phase_after_last.
  destruct (accumulator_cases mode)
    as [[Hmode Hacc] | [[Hmode Hacc] | (Hr & Hi & Hacc)]].
  - destruct (call_accumulates sp a mode z xs fuel Hrows Hslots Hxs Hfuel
                cos Hacc) as (a1 & Hrun & _).
    eexists. exact Hrun.
  - destruct (call_accumulates sp a mode z xs fuel Hrows Hslots Hxs Hfuel
                sin Hacc) as (a1 & Hrun & _).
    eexists. exact Hrun.
  - eexists.
    rewrite (call_skips sp a mode z xs fuel Hslots Hxs Hfuel Hacc).
    destruct (Z.eqb_spec mode REAL); [contradiction | reflexivity].
Qed.

Lemma diagnostic_lines_witness :
  exists a',
    real_and_imaginary_arrays_generator wide 2 [0; 0; 0] REAL 0
    = Returns
        (a',
         [(gravitational_format, Value (gravitational_phase wide 0));
          (van_der_waals_format, Value (van_der_waals_phase wide 0))]).
Proof.
  apply (diagnostic_lines wide [0; 0; 0] REAL 0 [-1; 0] 2).
  - cbn. lia.
  - reflexivity.
  - apply wide_positions.
  - cbn. lia.
Defined.

(** C7.  In mode REAL the second line is to report the Van der Waals phase
    of the last pass through the sample loop.  On the empty sample range of
    [narrow 1] no pass takes place, and the call still prints the line, with
    a variable that was never assigned. *)
Lemma diagnostic_without_sample :
  sample_positions (narrow 1) []
  /\ exists a',
       real_and_imaginary_arrays_generator (narrow 1) 0 [0] REAL 0
       = Returns
           (a',
            [(gravitational_format, Value 0);
             (van_der_waals_format, Indeterminate)]).
Proof.
  split.
  - apply sample_positions_empty, narrow_range.
  - eexists.
    apply (call_after_orders (narrow 1) 0 [0] REAL 0 [0] Indeterminate).
    + apply order_loop_empty_range. pose proof (narrow_range 1). lra.
    + reflexivity.
Qed.

(** ** Unknown mode *)

(** C9, as the code has it.  For a mode other than 1 and 2 and a call whose
    sample loop terminates, the loops leave the array as it was, nothing is
    printed, and the normalization divides every slot by the resolution. *)
Theorem other_mode_only_normalizes (sp : simulation_parameters) (a : array)
  (mode : Z) (z : R) (xs : list R) (fuel : nat) :
  mode <> REAL ->
  mode <> IMAGINARY ->
  length a = Z.to_nat (number_of_rows_fourier_coefficient_array sp) ->
  sample_positions sp xs ->
  (length xs <= fuel)%nat ->
  (exists p,
     order_loop sp mode (gravitational_phase sp z) fuel
       (Z.to_nat (half_width sp + 1 - - half_width sp)) (- half_width sp)%Z
       (a, Indeterminate)
     = Returns (a, p))
  /\ real_and_imaginary_arrays_generator sp fuel a mode z
     = Returns (map (fun v => v / resolution sp) a, []).
Proof.
  intros Hr Hi Hslots Hxs Hfuel.
  assert (Hacc : accumulator mode = None).
  { destruct (accumulator_cases mode)
      as [[Hmode _] | [[Hmode _] | (_ & _ & Hacc)]];
      [contradiction | contradiction | exact Hacc]. }
  split.
  - eexists. apply (order_loop_skips sp mode _ xs fuel Hxs Hfuel Hacc).
  - apply (call_skips sp a mode z xs fuel Hslots Hxs Hfuel Hacc).
Qed.

Lemma other_mode_only_normalizes_witness :
  (exists p,
     order_loop wide 3 (gravitational_phase wide 0) 2
       (Z.to_nat (half_width wide + 1 - - half_width wide))
       (- half_width wide)%Z ([3; 6; 9], Indeterminate)
     = Returns ([3; 6; 9], p))
  /\ real_and_imaginary_arrays_generator wide 2 [3; 6; 9] 3 0
     = Returns (map (fun v => v / 4) [3; 6; 9], []).
Proof.
  apply (other_mode_only_normalizes wide [3; 6; 9] 3 0 [-1; 0] 2).
  - discriminate.
  - discriminate.
  - reflexivity.
  - apply wide_positions.
  - cbn. lia.
Defined.

(** C9 as stated fails: with a negative slit height the sample range is
    not empty and the step is negative, so a call in mode 3 never reaches
    the normalization. *)
Lemma other_mode_may_diverge :
  diverges
    (fun fuel => real_and_imaginary_arrays_generator backwards fuel [0] 3 0).
Proof.
  intros fuel. unfold real_and_imaginary_arrays_generator.
  change (Z.to_nat (half_width backwards + 1 - - half_width backwards))
    with 1%nat.
  destruct backwards_range as [Hrange Hstep].
  rewrite order_loop_stuck by (reflexivity || assumption).
  reflexivity.
Qed.

(** ** Van der Waals phase *)

Lemma Req_bool_true (x y : R) : Req_bool x y = true <-> x = y.
Proof.
  unfold Req_bool. destruct (Req_dec_T x y); split; intros;
    congruence || discriminate.
Qed.

Lemma van_der_waals_guard_taken (sp : simulation_parameters) (ex : R) :
  account_van_der_waals sp = 0%Z
  \/ distance_to_lower_side ex = 0
  \/ distance_to_upper_side sp ex = 0 ->
  van_der_waals_traced sp ex = (0, []).
Proof.
  intros Hguard. unfold van_der_waals_traced.
  replace ((account_van_der_waals sp =? 0)%Z
           || Req_bool (distance_to_lower_side ex) 0
           || Req_bool (distance_to_upper_side sp ex) 0) with true;
    [reflexivity|].
  symmetry. rewrite !orb_true_iff, Z.eqb_eq, !Req_bool_true. tauto.
Qed.

Lemma van_der_waals_guard_passed (sp : simulation_parameters) (ex : R) :
  account_van_der_waals sp <> 0%Z ->
  distance_to_lower_side ex <> 0 ->
  distance_to_upper_side sp ex <> 0 ->
  van_der_waals_traced sp ex
  = (- C3 * grating_thickness sp
     / (hbar * particle_velocity sp * distance_to_lower_side ex ^ 3)
     - C3 * grating_thickness sp
       / (hbar * particle_velocity sp * distance_to_upper_side sp ex ^ 3),
     [hbar * particle_velocity sp * distance_to_lower_side ex ^ 3;
      hbar * particle_velocity sp * distance_to_upper_side sp ex ^ 3]).
Proof.
  intros Hflag Hlow Hup. unfold van_der_waals_traced.
  replace ((account_van_der_waals sp =? 0)%Z
           || Req_bool (distance_to_lower_side ex) 0
           || Req_bool (distance_to_upper_side sp ex) 0) with false;
    [reflexivity|].
  symmetry. apply not_true_is_false.
  rewrite !orb_true_iff, Z.eqb_eq, !Req_bool_true. tauto.
Qed.

Lemma hbar_nonzero : hbar <> 0.
Proof. unfold hbar. lra. Qed.





(** * Further properties of the function *)

(** ** Slots the loop over the orders does not touch *)

Lemma order_loop_frame (sp : simulation_parameters) (mode : Z) (G : R)
  (xs : list R) (fuel : nat) (trig : R -> R) :
  sample_positions sp xs ->
  (length xs <= fuel)%nat ->
  accumulator mode = Some trig ->
  forall remaining n a p a' p',
    (0 <= order_index sp n)%Z ->
    (order_index sp n + Z.of_nat remaining <= Z.of_nat (length a))%Z ->
    order_loop sp mode G fuel remaining n (a, p) = Returns (a', p') ->
    forall i, (order_index sp n + Z.of_nat remaining <= Z.of_nat i)%Z ->
      nth i a' 0 = nth i a 0.
Proof.
  intros Hxs Hfuel Hacc.
  induction remaining as [|remaining IH]; intros n a p a' p' Hlo Hhi Hrun i Hi.
  - cbn in Hrun. injection Hrun as <- _. reflexivity.
  - cbn [order_loop] in Hrun.
    rewrite (sample_loop_accumulates sp mode G trig n Hacc _ _ Hxs) in Hrun
      by (try assumption; apply in_range_spec; lia).
    cbn [bind] in Hrun.
    assert (Hnext : order_index sp (n + 1) = (order_index sp n + 1)%Z)
      by (unfold order_index; lia).
    pose proof (fun H1 H2 => IH (n + 1)%Z _ _ _ _ H1 H2 Hrun i) as Hrest.
    rewrite Hrest; [| lia | rewrite set_nth_length; lia | lia].
    apply nth_set_nth_neq. lia.
Qed.

(** ** A call in an accumulating mode *)

Section Accumulating_call.

Variable sp : simulation_parameters.
Variable a : array.
Variable mode : Z.
Variable z : R.
Variable xs : list R.
Variable fuel : nat.
Variable trig : R -> R.

Let N := number_of_rows_fourier_coefficient_array sp.
Let G := gravitational_phase sp z.

Hypothesis rows : (1 <= N)%Z.
Hypothesis slots : length a = Z.to_nat N.
Hypothesis positions : sample_positions sp xs.
Hypothesis enough : (length xs <= fuel)%nat.
Hypothesis accumulates : accumulator mode = Some trig.

Lemma accumulating_call :
  exists a' out,
    real_and_imaginary_arrays_generator sp fuel a mode z = Returns (a', out)
    /\ length a' = length a
    /\ (forall n, (- half_width sp <= n <= half_width sp)%Z ->
          slot sp a' n
          = (slot sp a n + sum_over (accumulated_term sp G trig n) xs)
            / resolution sp)
    /\ (forall i, (2 * half_width sp < Z.of_nat i < N)%Z ->
          nth i a' 0 = nth i a 0 / resolution sp).
Proof.
  destruct (half_width_bounds sp rows) as [Hh0 Hh1]. fold N in Hh1.
  destruct (order_loop_accumulates sp mode G xs fuel positions enough
              trig accumulates
              (Z.to_nat (half_width sp + 1 - - half_width sp))
              (- half_width sp)%Z a Indeterminate)
    as (a1 & Hrun & Hlen & Hupd & _).
  { unfold order_index. lia. }
  { unfold order_index. lia. }
  assert (Hframe : forall i,
             (order_index sp (- half_width sp)
              + Z.of_nat (Z.to_nat (half_width sp + 1 - - half_width sp))
              <= Z.of_nat i)%Z ->
             nth i a1 0 = nth i a 0).
  { apply (order_loop_frame sp mode G xs fuel trig positions enough
             accumulates _ _ _ Indeterminate a1
             (phase_after_orders sp xs
                (Z.to_nat (half_width sp + 1 - - half_width sp))
                Indeterminate));
      [unfold order_index; lia | unfold order_index; lia | exact Hrun]. }
  exists (map (fun v => v / resolution sp) a1). eexists.
  split; [|split; [|split]].
  - apply (call_after_orders sp fuel a mode z a1 _ Hrun).
    fold N. congruence.
  - rewrite length_map. exact Hlen.
  - intros n Hn. unfold slot.
    rewrite nth_map_divide by (unfold order_index; lia).
    rewrite Hupd by lia. reflexivity.
  - intros i Hi. rewrite nth_map_divide by lia.
    rewrite Hframe by (unfold order_index; lia). reflexivity.
Qed.

End Accumulating_call.

Lemma slot_zeros (sp : simulation_parameters) (n : Z) :
  slot sp (zeros sp) n = 0.
Proof. unfold slot, zeros. apply nth_repeat. Qed.

Lemma zeros_length (sp : simulation_parameters) :
  length (zeros sp)
  = Z.to_nat (number_of_rows_fourier_coefficient_array sp).
Proof. apply repeat_length. Qed.

(** On zeros, every order's slot is its sum divided by the resolution. *)
Lemma zeroed_call (sp : simulation_parameters) (mode : Z) (z : R)
  (xs : list R) (fuel : nat) (trig : R -> R) :
  (1 <= number_of_rows_fourier_coefficient_array sp)%Z ->
  sample_positions sp xs ->
  (length xs <= fuel)%nat ->
  accumulator mode = Some trig ->
  exists a' out,
    real_and_imaginary_arrays_generator sp fuel (zeros sp) mode z
    = Returns (a', out)
    /\ forall n, (- half_width sp <= n <= half_width sp)%Z ->
         slot sp a' n
         = sum_over
             (accumulated_term sp (gravitational_phase sp z) trig n) xs
           / resolution sp.
Proof.
  intros Hrows Hxs Hfuel Hacc.
  destruct (accumulating_call sp (zeros sp) mode z xs fuel trig Hrows
              (zeros_length sp) Hxs Hfuel Hacc)
    as (a' & out & Hrun & _ & Hslots & _).
  exists a', out. split; [exact Hrun|].
  intros n Hn. rewrite Hslots by assumption.
  rewrite slot_zeros. f_equal. ring.
Qed.

(** ** Gravitational phase *)

(** C3.  With a non-zero velocity and grating period, the gravitational phase
    of a call at [z] is the scalar
    [G = 2*pi*(-9.8)*(z/velocity)^2/grating_period] when the gravity flag is
    set and [G = 0] otherwise.  It is the phase of every accumulation term,
    whatever the order and the sample position: each pass through the body
    adds [cos] (mode REAL) or [sin] (mode IMAGINARY) of
    [phase_vdw + 2*pi*n*ex/grating_period + G] to the slot of the order, so
    that after the call every slot holds its former content plus the sum of
    these terms, divided by the resolution; and [G] is the value of the
    first line printed in mode REAL. *)
Theorem gravitational_phase_scalar (sp : simulation_parameters) (z : R) :
  particle_velocity sp <> 0 ->
  grating_period sp <> 0 ->
  let G :=
    if (account_gravity sp =? 1)%Z
    then 2 * PI * (-9.8) * (z / particle_velocity sp) ^ 2 / grating_period sp
    else 0 in
  let term (mode n : Z) (ex : R) : R :=
    (if (mode =? REAL)%Z then cos else sin)
      (van_der_waals_phase sp ex
       + 2 * PI * IZR n * ex / grating_period sp + G) in
  gravitational_phase sp z = G
  /\ (forall mode n ex b p,
        mode = REAL \/ mode = IMAGINARY ->
        in_range b (order_index sp n) = true ->
        sample_body sp mode (gravitational_phase sp z) n ex (b, p)
        = Returns
            (set_nth (Z.to_nat (order_index sp n))
               (nth (Z.to_nat (order_index sp n)) b 0 + term mode n ex) b,
             Value (van_der_waals_phase sp ex)))
  /\ (forall a mode xs fuel,
        mode = REAL \/ mode = IMAGINARY ->
        (1 <= number_of_rows_fourier_coefficient_array sp)%Z ->
        length a = Z.to_nat (number_of_rows_fourier_coefficient_array sp) ->
        sample_positions sp xs ->
        (length xs <= fuel)%nat ->
        exists a' out,
          real_and_imaginary_arrays_generator sp fuel a mode z
          = Returns (a', out)
          /\ (forall n, (- half_width sp <= n <= half_width sp)%Z ->
                slot sp a' n
                = (slot sp a n + sum_over (term mode n) xs)
                  / resolution sp)
          /\ (mode = REAL ->
              nth_error out 0 = Some (gravitational_format, Value G))).
Proof.
  intros Hv Hd G term.
  assert (HG : gravitational_phase sp z = G).
  { unfold gravitational_phase, G, gravity_acceleration.
    destruct (account_gravity sp =? 1)%Z; reflexivity. }
  split; [exact HG|]. split.
  - intros mode n ex b p [-> | ->] Hj.
    + rewrite (sample_body_accumulates sp REAL _ cos) by (reflexivity || exact Hj).
      unfold accumulated_term. rewrite HG. reflexivity.
    + rewrite (sample_body_accumulates sp IMAGINARY _ sin)
        by (reflexivity || exact Hj).
      unfold accumulated_term. rewrite HG. reflexivity.
  - intros a mode xs fuel Hmode Hrows Hslots Hxs Hfuel.
    assert (Hcall : forall trig,
               accumulator mode = Some trig ->
               exists a' out,
                 real_and_imaginary_arrays_generator sp fuel a mode z
                 = Returns (a', out)
                 /\ (forall n, (- half_width sp <= n <= half_width sp)%Z ->
                       slot sp a' n
                       = (slot sp a n
                          + sum_over (accumulated_term sp G trig n) xs)
                         / resolution sp)
                 /\ (mode = REAL ->
                     nth_error out 0
                     = Some (gravitational_format, Value G))).
    { intros trig Hacc.
      destruct (half_width_bounds sp Hrows) as [Hh0 Hh1].
      destruct (order_loop_accumulates sp mode (gravitational_phase sp z)
                  xs fuel Hxs Hfuel trig Hacc
                  (Z.to_nat (half_width sp + 1 - - half_width sp))
                  (- half_width sp)%Z a Indeterminate)
        as (a1 & Hrun & Hlen & Hupd & _);
        [unfold order_index; lia | unfold order_index; lia |].
      eexists; eexists. split; [|split].
      - apply (call_after_orders sp fuel a mode z a1 _ Hrun). congruence.
      - intros n Hn. unfold slot.
        rewrite nth_map_divide by (unfold order_index; lia).
        rewrite Hupd by lia. rewrite HG. reflexivity.
      - intros ->. rewrite HG. reflexivity. }
    destruct Hmode as [-> | ->].
    + apply (Hcall cos). reflexivity.
    + apply (Hcall sin). reflexivity.
Qed.

Lemma gravitational_phase_scalar_witness :
  gravitational_phase falling 4 = 2 * PI * (-9.8) * (4 / 2) ^ 2 / 1
  /\ exists a' out,
       real_and_imaginary_arrays_generator falling 2 [10; 20; 30] REAL 4
       = Returns (a', out)
       /\ (forall n, (- 1 <= n <= 1)%Z ->
             slot falling a' n
             = (slot falling [10; 20; 30] n
                + sum_over
                    (fun ex =>
                       cos (van_der_waals_phase falling ex
                            + 2 * PI * IZR n * ex / 1
                            + 2 * PI * (-9.8) * (4 / 2) ^ 2 / 1))
                    [-1; 0])
               / 4)
       /\ (REAL = REAL ->
           nth_error out 0
           = Some
               (gravitational_format,
                Value (2 * PI * (-9.8) * (4 / 2) ^ 2 / 1))).
Proof.
  destruct (gravitational_phase_scalar falling 4) as (HG & _ & Hcall).
  - cbn. lra.
  - cbn. lra.
  - split; [exact HG|].
    apply (Hcall [10; 20; 30] REAL [-1; 0] 2%nat).
    + left. reflexivity.
    + cbn. lia.
    + reflexivity.
    + exact (wide_positions 2 0 3).
    + cbn. lia.
Defined.

(** ** Divergence of a call *)


Lemma sample_loop_never_ends (sp : simulation_parameters) (mode : Z)
  (G : R) (n : Z) :
  sample_step sp <= 0 ->
  forall fuel ex a p,
    in_range a (order_index sp n) = true ->
    ex < x_max sp ->
    sample_loop sp mode G fuel n ex (a, p) = OutOfFuel.
Proof.
  intros Hstep. induction fuel as [|fuel IH]; intros ex a p Hj Hlt;
    simpl; destruct (Rlt_dec ex (x_max sp)); try contradiction;
    [reflexivity|].
  destruct (accumulator_cases mode)
    as [[_ Hacc] | [[_ Hacc] | (_ & _ & Hacc)]].
  - rewrite (sample_body_accumulates sp mode G cos) by assumption.
    cbn [bind]. apply IH; [rewrite in_range_set_nth; assumption | lra].
  - rewrite (sample_body_accumulates sp mode G sin) by assumption.
    cbn [bind]. apply IH; [rewrite in_range_set_nth; assumption | lra].
  - rewrite sample_body_skips by assumption.
    cbn [bind]. apply IH; [assumption | lra].
Qed.

(** X2.  With a slit height [<= 0], a positive resolution and a sample range
    that is not empty, the sample position never increases: a call on
    [N >= 1] slots does not return, in any mode. *)
Theorem call_diverges (sp : simulation_parameters) (a : array) (mode : Z)
  (z : R) :
  slit_height sp <= 0 ->
  0 < resolution sp ->
  x_min sp < x_max sp ->
  (1 <= number_of_rows_fourier_coefficient_array sp)%Z ->
  length a = Z.to_nat (number_of_rows_fourier_coefficient_array sp) ->
  diverges (fun fuel => real_and_imaginary_arrays_generator sp fuel a mode z).
Proof.
  intros Hslit Hres Hrange Hrows Hslots fuel.
  destruct (half_width_bounds sp Hrows) as [Hh0 Hh1].
  assert (Hstep : sample_step sp <= 0).
  { unfold sample_step, Rdiv.
    pose proof (Rinv_0_lt_compat _ Hres). nra. }
  unfold real_and_imaginary_arrays_generator.
  replace (Z.to_nat (half_width sp + 1 - - half_width sp))
    with (S (Z.to_nat (2 * half_width sp))) by lia.
  cbn [order_loop].
  rewrite sample_loop_never_ends;
    [reflexivity | assumption | | assumption].
  apply in_range_spec. unfold order_index. lia.
Qed.

Lemma call_diverges_witness :
  diverges
    (fun fuel => real_and_imaginary_arrays_generator backwards fuel [0]
                   REAL 2).
Proof.
  destruct backwards_range as [Hrange _].
  apply (call_diverges backwards [0] REAL 2).
  - cbn. lra.
  - cbn. lra.
  - exact Hrange.
  - cbn. lia.
  - reflexivity.
Defined.

(** ** Accumulation in place *)

(** X3.  The call adds to what the array holds: on any array of [N >= 1]
    slots, after a returning call the slot of every order holds its former
    content plus the sum of the mode's terms, divided by the resolution.  An
    array that was not zeroed is not reset. *)
Theorem call_adds_to_slots (sp : simulation_parameters) (a : array)
  (mode : Z) (z : R) (xs : list R) (fuel : nat) :
  (1 <= number_of_rows_fourier_coefficient_array sp)%Z ->
  length a = Z.to_nat (number_of_rows_fourier_coefficient_array sp) ->
  sample_positions sp xs ->
  (length xs <= fuel)%nat ->
  mode = REAL \/ mode = IMAGINARY ->
  exists a' out,
    real_and_imaginary_arrays_generator sp fuel a mode z = Returns (a', out)
    /\ forall n, (- half_width sp <= n <= half_width sp)%Z ->
         slot sp a' n
         = (slot sp a n
            + sum_over
                (fun ex =>
                   (if (mode =? REAL)%Z then cos else sin)
                     (van_der_waals_phase sp ex
                      + 2 * PI * IZR n * ex / grating_period sp
                      + gravitational_phase sp z)) xs)
           / resolution sp.
Proof.
  intros Hrows Hslots Hxs Hfuel [-> | ->].
  - destruct (accumulating_call sp a REAL z xs fuel cos Hrows Hslots Hxs
                Hfuel eq_refl) as (a' & out & Hrun & _ & Hupd & _).
    exists a', out. split; [exact Hrun | exact Hupd].
  - destruct (accumulating_call sp a IMAGINARY z xs fuel sin Hrows Hslots
                Hxs Hfuel eq_refl) as (a' & out & Hrun & _ & Hupd & _).
    exists a', out. split; [exact Hrun | exact Hupd].
Qed.

Lemma call_adds_to_slots_witness :
  exists a' out,
    real_and_imaginary_arrays_generator wide 2 [10; 20; 30] REAL 0
    = Returns (a', out)
    /\ forall n, (- 1 <= n <= 1)%Z ->
         slot wide a' n
         = (slot wide [10; 20; 30] n
            + sum_over
                (fun ex =>
                   cos (van_der_waals_phase wide ex
                        + 2 * PI * IZR n * ex / 1
                        + gravitational_phase wide 0)) [-1; 0])
           / 4.
Proof.
  apply (call_adds_to_slots wide [10; 20; 30] REAL 0 [-1; 0] 2).
  - cbn. lia.
  - reflexivity.
  - apply wide_positions.
  - cbn. lia.
  - left. reflexivity.
Defined.

Lemma half_width_even (sp : simulation_parameters) :
  Z.even (number_of_rows_fourier_coefficient_array sp) = true ->
  (2 <= number_of_rows_fourier_coefficient_array sp)%Z ->
  (2 * half_width sp = number_of_rows_fourier_coefficient_array sp - 2)%Z.
Proof.
  intros Heven Hpos. unfold half_width.
  apply Z.even_spec in Heven. destruct Heven as [k Hk].
  rewrite Z.quot_div_nonneg by lia.
  replace (number_of_rows_fourier_coefficient_array sp - 1)%Z
    with (1 + (k - 1) * 2)%Z by lia.
  rewrite Z.div_add by lia. change (1 / 2)%Z with 0%Z. lia.
Qed.

(** X4.  With an even row count [N >= 2] the orders run over only [N - 1]
    slots: the last slot, [N - 1], receives no term and is merely divided by
    the resolution, in every mode. *)
Theorem even_rows_last_slot (sp : simulation_parameters) (a : array)
  (mode : Z) (z : R) (xs : list R) (fuel : nat) :
  let N := number_of_rows_fourier_coefficient_array sp in
  Z.even N = true ->
  (2 <= N)%Z ->
  length a = Z.to_nat N ->
  sample_positions sp xs ->
  (length xs <= fuel)%nat ->
  exists a' out,
    real_and_imaginary_arrays_generator sp fuel a mode z = Returns (a', out)
    /\ nth (Z.to_nat (N - 1)) a' 0
       = nth (Z.to_nat (N - 1)) a 0 / resolution sp.
Proof.
  intros N Heven Hrows Hslots Hxs Hfuel.
  pose proof (half_width_even sp Heven Hrows) as Hh. fold N in Hh.
  assert (Hrows1 : (1 <= number_of_rows_fourier_coefficient_array sp)%Z)
    by (fold N; lia).
  destruct (accumulator_cases mode)
    as [[_ Hacc] | [[_ Hacc] | (_ & _ & Hacc)]].
  - destruct (accumulating_call sp a mode z xs fuel cos Hrows1 Hslots Hxs
                Hfuel Hacc) as (a' & out & Hrun & _ & _ & Hframe).
    exists a', out. split; [exact Hrun|]. apply Hframe. fold N. lia.
  - destruct (accumulating_call sp a mode z xs fuel sin Hrows1 Hslots Hxs
                Hfuel Hacc) as (a' & out & Hrun & _ & _ & Hframe).
    exists a', out. split; [exact Hrun|]. apply Hframe. fold N. lia.
  - eexists; eexists. split.
    + apply (call_skips sp a mode z xs fuel Hslots Hxs Hfuel Hacc).
    + apply nth_map_divide. lia.
Qed.

Lemma even_rows_last_slot_witness :
  exists a' out,
    real_and_imaginary_arrays_generator four_rows 2 [0; 0; 0; 8] REAL 0
    = Returns (a', out)
    /\ nth 3 a' 0 = 8 / 4.
Proof.
  apply (even_rows_last_slot four_rows [0; 0; 0; 8] REAL 0 [-1; 0] 2).
  - reflexivity.
  - cbn. lia.
  - reflexivity.
  - apply wide_positions.
  - cbn. lia.
Defined.

(** X11.  A row count of zero is not an empty loop: [(0 - 1) / 2] truncates
    to [0], so the loop over the orders visits order [0] and, as soon as the
    sample range is not empty, an accumulating mode accesses slot [0] of an
    array that has none. *)
Theorem no_rows_out_of_bounds (sp : simulation_parameters) (mode : Z)
  (z : R) (fuel : nat) :
  number_of_rows_fourier_coefficient_array sp = 0%Z ->
  mode = REAL \/ mode = IMAGINARY ->
  x_min sp < x_max sp ->
  real_and_imaginary_arrays_generator sp (S fuel) [] mode z = OutOfBounds.
Proof.
  intros Hrows Hmode Hrange.
  assert (Hh : half_width sp = 0%Z)
    by (unfold half_width; rewrite Hrows; reflexivity).
  unfold real_and_imaginary_arrays_generator. rewrite Hh.
  change (Z.to_nat (0 + 1 - - 0)) with 1%nat.
  cbn [order_loop sample_loop].
  destruct (Rlt_dec (x_min sp) (x_max sp)); [|contradiction].
  unfold sample_body, load, order_index. rewrite Hh. cbn [fst].
  destruct Hmode as [-> | ->]; reflexivity.
Qed.

Lemma no_rows_out_of_bounds_witness :
  real_and_imaginary_arrays_generator no_rows 1 [] REAL 0 = OutOfBounds.
Proof.
  apply (no_rows_out_of_bounds no_rows REAL 0 0).
  - reflexivity.
  - left. reflexivity.
  - destruct (wide_bounds 1 0 0) as (Hmin & Hmax & _).
    unfold no_rows. rewrite Hmin, Hmax. lra.
Defined.

(** ** Sums over the sample positions *)

Lemma sum_over_ext (f g : R -> R) (xs : list R) :
  (forall x, f x = g x) -> sum_over f xs = sum_over g xs.
Proof.
  intros Hfg. induction xs as [|x xs IH]; [reflexivity|].
  simpl. rewrite Hfg, IH. reflexivity.
Qed.

Lemma sum_over_one (xs : list R) :
  sum_over (fun _ => 1) xs = INR (length xs).
Proof.
  induction xs as [|x xs IH]; [reflexivity|].
  cbn [sum_over fold_right length]. fold (sum_over (fun _ => 1) xs).
  rewrite IH, S_INR. ring.
Qed.

Lemma sum_over_zero (xs : list R) : sum_over (fun _ => 0) xs = 0.
Proof.
  induction xs as [|x xs IH]; [reflexivity|].
  cbn [sum_over fold_right]. fold (sum_over (fun _ => 0) xs).
  rewrite IH. ring.
Qed.

Lemma sum_over_opp (f : R -> R) (xs : list R) :
  sum_over (fun x => - f x) xs = - sum_over f xs.
Proof.
  induction xs as [|x xs IH]; [simpl; ring|].
  cbn [sum_over fold_right].
  fold (sum_over (fun x => - f x) xs). fold (sum_over f xs).
  rewrite IH. ring.
Qed.

Lemma sum_over_combination (c s : R) (f g : R -> R) (xs : list R) :
  sum_over (fun x => c * f x + s * g x) xs
  = c * sum_over f xs + s * sum_over g xs.
Proof.
  induction xs as [|x xs IH]; [simpl; ring|].
  cbn [sum_over fold_right].
  fold (sum_over (fun x => c * f x + s * g x) xs).
  fold (sum_over f xs). fold (sum_over g xs).
  rewrite IH. ring.
Qed.

Lemma sum_over_bounded (f : R -> R) (xs : list R) :
  (forall x, Rabs (f x) <= 1) -> Rabs (sum_over f xs) <= INR (length xs).
Proof.
  intros Hf. induction xs as [|x xs IH].
  - simpl. rewrite Rabs_R0. lra.
  - cbn [sum_over fold_right length]. fold (sum_over f xs).
    rewrite S_INR.
    pose proof (Rabs_triang (f x) (sum_over f xs)).
    pose proof (Hf x). lra.
Qed.

(** ** Without the two corrections *)

Lemma van_der_waals_phase_off (sp : simulation_parameters) (ex : R) :
  account_van_der_waals sp = 0%Z -> van_der_waals_phase sp ex = 0.
Proof.
  intros Hoff. unfold van_der_waals_phase.
  rewrite van_der_waals_guard_taken by (left; assumption). reflexivity.
Qed.

Lemma gravitational_phase_off (sp : simulation_parameters) (z : R) :
  account_gravity sp <> 1%Z -> gravitational_phase sp z = 0.
Proof.
  intros Hoff. unfold gravitational_phase.
  destruct (Z.eqb_spec (account_gravity sp) 1); [contradiction|reflexivity].
Qed.

Lemma plain_term (sp : simulation_parameters) (trig : R -> R) (z : R)
  (n : Z) (ex : R) :
  account_gravity sp <> 1%Z ->
  account_van_der_waals sp = 0%Z ->
  accumulated_term sp (gravitational_phase sp z) trig n ex
  = trig (diffraction_phase sp n ex).
Proof.
  intros Hg Hv. unfold accumulated_term.
  rewrite van_der_waals_phase_off, gravitational_phase_off by assumption.
  f_equal. ring.
Qed.

Lemma diffraction_phase_zero (sp : simulation_parameters) (ex : R) :
  diffraction_phase sp 0 ex = 0.
Proof. unfold diffraction_phase, Rdiv. ring. Qed.

Lemma diffraction_phase_opp (sp : simulation_parameters) (n : Z) (ex : R) :
  diffraction_phase sp (- n) ex = - diffraction_phase sp n ex.
Proof. unfold diffraction_phase, Rdiv. rewrite opp_IZR. ring. Qed.

(** X5.  With both corrections off, the slot of order [0] of a zeroed array
    counts the samples: in mode REAL it holds the number of sample positions
    divided by the resolution, in mode IMAGINARY it holds [0]. *)
Theorem plain_order_zero (sp : simulation_parameters) (z : R)
  (xs : list R) (fuel : nat) :
  account_gravity sp <> 1%Z ->
  account_van_der_waals sp = 0%Z ->
  (1 <= number_of_rows_fourier_coefficient_array sp)%Z ->
  sample_positions sp xs ->
  (length xs <= fuel)%nat ->
  (exists a' out,
     real_and_imaginary_arrays_generator sp fuel (zeros sp) REAL z
     = Returns (a', out)
     /\ slot sp a' 0 = INR (length xs) / resolution sp)
  /\ (exists a' out,
        real_and_imaginary_arrays_generator sp fuel (zeros sp) IMAGINARY z
        = Returns (a', out)
        /\ slot sp a' 0 = 0).
Proof.
  intros Hg Hv Hrows Hxs Hfuel.
  destruct (half_width_bounds sp Hrows) as [Hh0 _].
  split.
  - destruct (zeroed_call sp REAL z xs fuel cos Hrows Hxs Hfuel eq_refl)
      as (a' & out & Hrun & Hslot).
    exists a', out. split; [exact Hrun|].
    rewrite Hslot by lia. f_equal.
    rewrite <- sum_over_one. apply sum_over_ext. intros ex.
    rewrite plain_term by assumption.
    rewrite diffraction_phase_zero. apply cos_0.
  - destruct (zeroed_call sp IMAGINARY z xs fuel sin Hrows Hxs Hfuel
                eq_refl) as (a' & out & Hrun & Hslot).
    exists a', out. split; [exact Hrun|].
    rewrite Hslot by lia.
    rewrite (sum_over_ext _ (fun _ => 0)).
    + rewrite sum_over_zero. unfold Rdiv. ring.
    + intros ex. rewrite plain_term by assumption.
      rewrite diffraction_phase_zero. apply sin_0.
Qed.

Lemma plain_order_zero_witness :
  (exists a' out,
     real_and_imaginary_arrays_generator wide 2 (zeros wide) REAL 7
     = Returns (a', out)
     /\ slot wide a' 0 = INR 2 / 4)
  /\ (exists a' out,
        real_and_imaginary_arrays_generator wide 2 (zeros wide) IMAGINARY 7
        = Returns (a', out)
        /\ slot wide a' 0 = 0).
Proof.
  apply (plain_order_zero wide 7 [-1; 0] 2).
  - discriminate.
  - reflexivity.
  - cbn. lia.
  - apply wide_positions.
  - cbn. lia.
Defined.

(** X6.  With both corrections off, the coefficients of a zeroed array are
    conjugate-symmetric in the order: the real part is the same at [-n] and
    [n], the imaginary part changes sign. *)
Theorem plain_conjugate_symmetry (sp : simulation_parameters) (z : R)
  (xs : list R) (fuel : nat) :
  account_gravity sp <> 1%Z ->
  account_van_der_waals sp = 0%Z ->
  (1 <= number_of_rows_fourier_coefficient_array sp)%Z ->
  sample_positions sp xs ->
  (length xs <= fuel)%nat ->
  (exists a' out,
     real_and_imaginary_arrays_generator sp fuel (zeros sp) REAL z
     = Returns (a', out)
     /\ forall n, (- half_width sp <= n <= half_width sp)%Z ->
          slot sp a' (- n) = slot sp a' n)
  /\ (exists a' out,
        real_and_imaginary_arrays_generator sp fuel (zeros sp) IMAGINARY z
        = Returns (a', out)
        /\ forall n, (- half_width sp <= n <= half_width sp)%Z ->
             slot sp a' (- n) = - slot sp a' n).
Proof.
  intros Hg Hv Hrows Hxs Hfuel. split.
  - destruct (zeroed_call sp REAL z xs fuel cos Hrows Hxs Hfuel eq_refl)
      as (a' & out & Hrun & Hslot).
    exists a', out. split; [exact Hrun|]. intros n Hn.
    rewrite !Hslot by lia. f_equal.
    apply sum_over_ext. intros ex.
    rewrite !plain_term by assumption.
    rewrite diffraction_phase_opp. apply cos_neg.
  - destruct (zeroed_call sp IMAGINARY z xs fuel sin Hrows Hxs Hfuel
                eq_refl) as (a' & out & Hrun & Hslot).
    exists a', out. split; [exact Hrun|]. intros n Hn.
    rewrite !Hslot by lia.
    rewrite (sum_over_ext _
               (fun ex =>
                  - accumulated_term sp (gravitational_phase sp z) sin n
                      ex)).
    + rewrite sum_over_opp. unfold Rdiv. ring.
    + intros ex. rewrite !plain_term by assumption.
      rewrite diffraction_phase_opp. apply sin_neg.
Qed.

Lemma plain_conjugate_symmetry_witness :
  (exists a' out,
     real_and_imaginary_arrays_generator wide 2 (zeros wide) REAL 7
     = Returns (a', out)
     /\ forall n, (- 1 <= n <= 1)%Z -> slot wide a' (- n) = slot wide a' n)
  /\ (exists a' out,
        real_and_imaginary_arrays_generator wide 2 (zeros wide) IMAGINARY 7
        = Returns (a', out)
        /\ forall n, (- 1 <= n <= 1)%Z ->
             slot wide a' (- n) = - slot wide a' n).
Proof.
  apply (plain_conjugate_symmetry wide 7 [-1; 0] 2).
  - discriminate.
  - reflexivity.
  - cbn. lia.
  - apply wide_positions.
  - cbn. lia.
Defined.

(** X7.  Each coefficient of a zeroed array is bounded by the number of
    samples over the resolution, whatever the phases: every term is a cosine
    or a sine. *)
Theorem coefficient_bounded (sp : simulation_parameters) (mode : Z)
  (z : R) (xs : list R) (fuel : nat) :
  0 < resolution sp ->
  (1 <= number_of_rows_fourier_coefficient_array sp)%Z ->
  sample_positions sp xs ->
  (length xs <= fuel)%nat ->
  mode = REAL \/ mode = IMAGINARY ->
  exists a' out,
    real_and_imaginary_arrays_generator sp fuel (zeros sp) mode z
    = Returns (a', out)
    /\ forall n, (- half_width sp <= n <= half_width sp)%Z ->
         Rabs (slot sp a' n) <= INR (length xs) / resolution sp.
Proof.
  intros Hres Hrows Hxs Hfuel Hmode.
  assert (Hbound : forall trig,
             (forall x, Rabs (trig x) <= 1) ->
             forall n,
               Rabs (sum_over
                       (accumulated_term sp (gravitational_phase sp z)
                          trig n) xs / resolution sp)
               <= INR (length xs) / resolution sp).
  { intros trig Htrig n. unfold Rdiv.
    rewrite Rabs_mult, (Rabs_pos_eq (/ resolution sp))
      by (left; apply Rinv_0_lt_compat; assumption).
    apply Rmult_le_compat_r;
      [left; apply Rinv_0_lt_compat; assumption|].
    apply sum_over_bounded. intros x. apply Htrig. }
  destruct Hmode as [-> | ->].
  - destruct (zeroed_call sp REAL z xs fuel cos Hrows Hxs Hfuel eq_refl)
      as (a' & out & Hrun & Hslot).
    exists a', out. split; [exact Hrun|]. intros n Hn.
    rewrite Hslot by assumption. apply Hbound.
    intros x. apply Rabs_le. pose proof (COS_bound x). lra.
  - destruct (zeroed_call sp IMAGINARY z xs fuel sin Hrows Hxs Hfuel
                eq_refl) as (a' & out & Hrun & Hslot).
    exists a', out. split; [exact Hrun|]. intros n Hn.
    rewrite Hslot by assumption. apply Hbound.
    intros x. apply Rabs_le. pose proof (SIN_bound x). lra.
Qed.

Lemma coefficient_bounded_witness :
  exists a' out,
    real_and_imaginary_arrays_generator (example_parameters 4 4 1 1 3) 2
      (zeros (example_parameters 4 4 1 1 3)) REAL 3
    = Returns (a', out)
    /\ forall n, (- 1 <= n <= 1)%Z ->
         Rabs (slot (example_parameters 4 4 1 1 3) a' n) <= INR 2 / 4.
Proof.
  apply (coefficient_bounded (example_parameters 4 4 1 1 3) REAL 3
           [-1; 0] 2).
  - cbn. lra.
  - cbn. lia.
  - apply wide_positions.
  - cbn. lia.
  - left. reflexivity.
Defined.

(** ** The two phases *)

(** X9.  The gravitational phase is quadratic in the position: scaling [z]
    by [k] scales the phase by [k ^ 2] (so it is even in [z]); and for a
    positive grating period it is never positive. *)
Theorem gravitational_phase_quadratic (sp : simulation_parameters)
  (z k : R) :
  particle_velocity sp <> 0 ->
  grating_period sp <> 0 ->
  gravitational_phase sp (k * z) = k ^ 2 * gravitational_phase sp z
  /\ (0 < grating_period sp -> gravitational_phase sp z <= 0).
Proof.
  intros Hv Hd. unfold gravitational_phase, gravity_acceleration.
  destruct (account_gravity sp =? 1)%Z.
  - split.
    + unfold Rdiv. ring.
    + intros Hpos.
      pose proof PI_RGT_0 as Hpi.
      pose proof (pow2_ge_0 (z / particle_velocity sp)) as Hsq.
      pose proof (Rinv_0_lt_compat _ Hpos) as Hinv.
      unfold Rdiv at 1.
      assert (Hnum : 2 * PI * -9.8 * (z / particle_velocity sp) ^ 2 <= 0)
        by nra.
      nra.
  - split; [ring | intros _; lra].
Qed.

Lemma gravitational_phase_quadratic_witness :
  gravitational_phase falling (3 * 4) = 3 ^ 2 * gravitational_phase falling 4
  /\ (0 < 1 -> gravitational_phase falling 4 <= 0).
Proof.
  apply (gravitational_phase_quadratic falling 4 3); cbn; lra.
Defined.

(** X12.  For a particle moving forward through a grating of non-negative
    thickness the Van der Waals phase is never positive, at any sample
    position. *)
Theorem van_der_waals_phase_nonpositive (sp : simulation_parameters)
  (ex : R) :
  0 < particle_velocity sp ->
  0 <= grating_thickness sp ->
  van_der_waals_phase sp ex <= 0.
Proof.
  intros Hv Ht. unfold van_der_waals_phase.
  destruct (Z.eq_dec (account_van_der_waals sp) 0) as [Hflag|Hflag];
    [rewrite van_der_waals_guard_taken by tauto; cbn; lra|].
  destruct (Req_dec_T (distance_to_lower_side ex) 0) as [Hlow|Hlow];
    [rewrite van_der_waals_guard_taken by tauto; cbn; lra|].
  destruct (Req_dec_T (distance_to_upper_side sp ex) 0) as [Hup|Hup];
    [rewrite van_der_waals_guard_taken by tauto; cbn; lra|].
  rewrite van_der_waals_guard_passed by assumption. cbn [fst].
  assert (Hterm : forall d, 0 <= d -> d <> 0 ->
             0 <= C3 * grating_thickness sp
                  / (hbar * particle_velocity sp * d ^ 3)).
  { intros d Hd0 Hd.
    assert (Hd3 : 0 < d ^ 3) by (apply pow_lt; lra).
    assert (Hden : 0 < hbar * particle_velocity sp * d ^ 3).
    { apply Rmult_lt_0_compat; [|assumption].
      apply Rmult_lt_0_compat; [unfold hbar; lra | assumption]. }
    apply Rmult_le_pos; [|left; apply Rinv_0_lt_compat; assumption].
    apply Rmult_le_pos; [unfold C3; lra | assumption]. }
  assert (Hl : 0 <= distance_to_lower_side ex).
  { unfold distance_to_lower_side. pose proof (Rabs_pos ex). nra. }
  assert (Hu : 0 <= distance_to_upper_side sp ex).
  { unfold distance_to_upper_side.
    pose proof (Rabs_pos (x_max sp - ex)). nra. }
  pose proof (Hterm _ Hl Hlow). pose proof (Hterm _ Hu Hup).
  replace (- C3 * grating_thickness sp
           / (hbar * particle_velocity sp * distance_to_lower_side ex ^ 3))
    with (- (C3 * grating_thickness sp
             / (hbar * particle_velocity sp
                * distance_to_lower_side ex ^ 3)))
    by (unfold Rdiv; ring).
  lra.
Qed.

Lemma van_der_waals_phase_nonpositive_witness :
  van_der_waals_phase (example_parameters 4 4 1 1 3) (-1) <= 0.
Proof.
  apply (van_der_waals_phase_nonpositive (example_parameters 4 4 1 1 3)).
  - cbn. lra.
  - cbn. lra.
Defined.

(** ** The nearly normal branches *)

(** X13.  Whenever [|tilt| <= wedge] (the two branches without the wedge
    term, for either sign of the tilt) the bounds are opposite and the range
    has length [slit_height * cos tilt - 2 * slit_height / resolution]; so
    for a positive slit height and resolution the sample range is not empty
    exactly when [resolution * cos tilt > 2]. *)
Theorem nearly_normal_bounds (sp : simulation_parameters) :
  Rabs (tilt_angle sp) <= wedge_angle sp ->
  x_min sp = - x_max sp
  /\ x_max sp - x_min sp
     = slit_height sp * cos (tilt_angle sp)
       - 2 * (slit_height sp / resolution sp)
  /\ (0 < slit_height sp -> 0 < resolution sp ->
      (x_min sp < x_max sp <-> 2 < resolution sp * cos (tilt_angle sp))).
Proof.
  intros Hnear.
  assert (Hsym : x_min sp = - x_max sp
                 /\ x_max sp
                    = slit_height sp * cos (tilt_angle sp) / 2
                      - slit_height sp / resolution sp).
  { pose proof (Rle_abs (tilt_angle sp)).
    bounds_cases sp; try lra; split; unfold Rdiv; ring. }
  destruct Hsym as [Hsym Hmax].
  split; [exact Hsym|]. split; [rewrite Hsym, Hmax; unfold Rdiv; lra|].
  intros Hslit Hres. rewrite Hsym, Hmax.
  assert (Hq : slit_height sp / resolution sp * resolution sp
               = slit_height sp) by (field; lra).
  set (q := slit_height sp / resolution sp) in *.
  set (c := cos (tilt_angle sp)) in *.
  assert (Hqpos : 0 < q) by (apply Rdiv_lt_0_compat; assumption).
  split; intros H.
  - assert (H1 : 2 * q < slit_height sp * c) by lra.
    rewrite <- Hq in H1. nra.
  - assert (H1 : 2 * q < slit_height sp * c) by (rewrite <- Hq; nra).
    lra.
Qed.

Lemma nearly_normal_bounds_witness :
  x_min (tilted (-1) 2) = - x_max (tilted (-1) 2)
  /\ x_max (tilted (-1) 2) - x_min (tilted (-1) 2)
     = 1 * cos (-1) - 2 * (1 / 4)
  /\ (0 < 1 -> 0 < 4 ->
      (x_min (tilted (-1) 2) < x_max (tilted (-1) 2)
       <-> 2 < 4 * cos (-1))).
Proof.
  apply (nearly_normal_bounds (tilted (-1) 2)).
  cbn. rewrite Rabs_left; lra.
Defined.

(** ** Gravity as a rotation *)

Lemma rotated_sums (sp : simulation_parameters) (G : R) (n : Z)
  (xs : list R) :
  sum_over (accumulated_term sp G cos n) xs
  = cos G * sum_over (accumulated_term sp 0 cos n) xs
    - sin G * sum_over (accumulated_term sp 0 sin n) xs
  /\ sum_over (accumulated_term sp G sin n) xs
     = sin G * sum_over (accumulated_term sp 0 cos n) xs
       + cos G * sum_over (accumulated_term sp 0 sin n) xs.
Proof.
  split.
  - rewrite (sum_over_ext _
               (fun ex => cos G * accumulated_term sp 0 cos n ex
                          + (- sin G) * accumulated_term sp 0 sin n ex)).
    + rewrite sum_over_combination. ring.
    + intros ex. unfold accumulated_term.
      rewrite cos_plus, !Rplus_0_r. ring.
  - rewrite (sum_over_ext _
               (fun ex => sin G * accumulated_term sp 0 cos n ex
                          + cos G * accumulated_term sp 0 sin n ex)).
    + apply sum_over_combination.
    + intros ex. unfold accumulated_term.
      rewrite sin_plus, !Rplus_0_r. ring.
Qed.

(** X10.  The gravitational phase only rotates the coefficients: the real
    and imaginary arrays computed with the phase [G] of the call are those
    computed with the gravity flag off, rotated by the angle [G], order by
    order. *)
Theorem gravity_rotates_coefficients (sp : simulation_parameters) (z : R)
  (xs : list R) (fuel : nat) :
  let G := gravitational_phase sp z in
  let sp0 := with_gravity sp 0 in
  (1 <= number_of_rows_fourier_coefficient_array sp)%Z ->
  sample_positions sp xs ->
  (length xs <= fuel)%nat ->
  exists re im re0 im0 o1 o2 o3 o4,
    real_and_imaginary_arrays_generator sp fuel (zeros sp) REAL z
    = Returns (re, o1)
    /\ real_and_imaginary_arrays_generator sp fuel (zeros sp) IMAGINARY z
       = Returns (im, o2)
    /\ real_and_imaginary_arrays_generator sp0 fuel (zeros sp) REAL z
       = Returns (re0, o3)
    /\ real_and_imaginary_arrays_generator sp0 fuel (zeros sp) IMAGINARY z
       = Returns (im0, o4)
    /\ forall n, (- half_width sp <= n <= half_width sp)%Z ->
         slot sp re n = cos G * slot sp re0 n - sin G * slot sp im0 n
         /\ slot sp im n = sin G * slot sp re0 n + cos G * slot sp im0 n.
Proof.
  intros G sp0 Hrows Hxs Hfuel.
  assert (Hxs0 : sample_positions sp0 xs) by exact Hxs.
  assert (Hrows0 : (1 <= number_of_rows_fourier_coefficient_array sp0)%Z)
    by exact Hrows.
  assert (HG0 : gravitational_phase sp0 z = 0)
    by (apply gravitational_phase_off; discriminate).
  destruct (zeroed_call sp REAL z xs fuel cos Hrows Hxs Hfuel eq_refl)
    as (re & o1 & Hre & Sre).
  destruct (zeroed_call sp IMAGINARY z xs fuel sin Hrows Hxs Hfuel eq_refl)
    as (im & o2 & Him & Sim).
  destruct (zeroed_call sp0 REAL z xs fuel cos Hrows0 Hxs0 Hfuel eq_refl)
    as (re0 & o3 & Hre0 & Sre0).
  destruct (zeroed_call sp0 IMAGINARY z xs fuel sin Hrows0 Hxs0 Hfuel
              eq_refl) as (im0 & o4 & Him0 & Sim0).
  rewrite HG0 in Sre0, Sim0.
  exists re, im, re0, im0, o1, o2, o3, o4.
  repeat (split; [assumption|]).
  intros n Hn.
  specialize (Sre n Hn). specialize (Sim n Hn).
  specialize (Sre0 n Hn). specialize (Sim0 n Hn).
  change (slot sp0 re0 n) with (slot sp re0 n) in Sre0.
  change (slot sp0 im0 n) with (slot sp im0 n) in Sim0.
  change (resolution sp0) with (resolution sp) in Sre0, Sim0.
  change (sum_over (accumulated_term sp0 0 cos n) xs)
    with (sum_over (accumulated_term sp 0 cos n) xs) in Sre0.
  change (sum_over (accumulated_term sp0 0 sin n) xs)
    with (sum_over (accumulated_term sp 0 sin n) xs) in Sim0.
  destruct (rotated_sums sp G n xs) as [Hc Hs].
  rewrite Sre, Sim, Sre0, Sim0. fold G. rewrite Hc, Hs.
  unfold Rdiv. split; ring.
Qed.

Lemma gravity_rotates_coefficients_witness :
  exists re im re0 im0 o1 o2 o3 o4,
    real_and_imaginary_arrays_generator falling 2 (zeros falling) REAL 4
    = Returns (re, o1)
    /\ real_and_imaginary_arrays_generator falling 2 (zeros falling)
         IMAGINARY 4
       = Returns (im, o2)
    /\ real_and_imaginary_arrays_generator (with_gravity falling 0) 2
         (zeros falling) REAL 4
       = Returns (re0, o3)
    /\ real_and_imaginary_arrays_generator (with_gravity falling 0) 2
         (zeros falling) IMAGINARY 4
       = Returns (im0, o4)
    /\ forall n, (- 1 <= n <= 1)%Z ->
         slot falling re n
         = cos (gravitational_phase falling 4) * slot falling re0 n
           - sin (gravitational_phase falling 4) * slot falling im0 n
         /\ slot falling im n
            = sin (gravitational_phase falling 4) * slot falling re0 n
              + cos (gravitational_phase falling 4) * slot falling im0 n.
Proof.
  apply (gravity_rotates_coefficients falling 4 [-1; 0] 2).
  - cbn. lia.
  - exact (wide_positions 2 0 3).
  - cbn. lia.
Defined.


(** ** The two signs of a steep tilt *)

(** X14.  The steep branches are not mirror images of each other.  For a
    wedge angle [0 <= wedge < t < pi/2] and a positive thickness, tilting by
    [+t] shortens the sample range of the nearly normal formula by
    [thickness * (tan t - tan wedge)], while tilting by [-t] lengthens it by
    [thickness * (tan wedge + tan t)]. *)
Theorem steep_tilt_asymmetry (sp : simulation_parameters) (t : R) :
  let up := with_tilt sp t in
  let down := with_tilt sp (- t) in
  let normal :=
    slit_height sp * cos t - 2 * (slit_height sp / resolution sp) in
  0 < grating_thickness sp ->
  0 <= wedge_angle sp ->
  wedge_angle sp < t ->
  t < PI / 2 ->
  x_max up - x_min up
  = normal - grating_thickness sp * (tan t - tan (wedge_angle sp))
  /\ x_max down - x_min down
     = normal + grating_thickness sp * (tan (wedge_angle sp) + tan t)
  /\ x_max up - x_min up < normal < x_max down - x_min down.
Proof.
  intros up down normal Hthick Hwedge Hsteep Hright.
  assert (Hup : x_max up - x_min up
                = normal
                  - grating_thickness sp * (tan t - tan (wedge_angle sp))).
  { subst up normal. bounds_cases (with_tilt sp t);
      cbn [tilt_angle wedge_angle slit_height resolution grating_thickness
           with_tilt] in *; try lra. }
  assert (Hdown : x_max down - x_min down
                  = normal
                    + grating_thickness sp
                      * (tan (wedge_angle sp) + tan t)).
  { subst down normal.
    bounds_cases (with_tilt sp (- t));
      cbn [tilt_angle wedge_angle slit_height resolution grating_thickness
           with_tilt] in *; try lra.
    - rewrite Rabs_left in * by lra. lra.
    - rewrite cos_neg, tan_neg. lra. }
  split; [exact Hup|]. split; [exact Hdown|].
  rewrite Hup, Hdown.
  pose proof PI_RGT_0 as Hpi.
  assert (Htan : tan (wedge_angle sp) < tan t)
    by (apply tan_increasing; lra).
  assert (Htan0 : 0 <= tan (wedge_angle sp)).
  { destruct Hwedge as [Hpos | <-]; [|rewrite tan_0; lra].
    left. apply tan_gt_0; lra. }
  split; nra.
Qed.

Lemma steep_tilt_asymmetry_witness :
  x_max (with_tilt (tilted 0 0) 1) - x_min (with_tilt (tilted 0 0) 1)
  = (1 * cos 1 - 2 * (1 / 4)) - 1 * (tan 1 - tan 0)
  /\ x_max (with_tilt (tilted 0 0) (- 1))
     - x_min (with_tilt (tilted 0 0) (- 1))
     = (1 * cos 1 - 2 * (1 / 4)) + 1 * (tan 0 + tan 1)
  /\ x_max (with_tilt (tilted 0 0) 1) - x_min (with_tilt (tilted 0 0) 1)
     < 1 * cos 1 - 2 * (1 / 4)
     < x_max (with_tilt (tilted 0 0) (- 1))
       - x_min (with_tilt (tilted 0 0) (- 1)).
Proof.
  apply (steep_tilt_asymmetry (tilted 0 0) 1).
  - cbn. lra.
  - cbn. lra.
  - cbn. lra.
  - pose proof PI_4. pose proof PI2_3_2. unfold Rdiv in *. lra.
Defined.

(** ** Array accesses *)

Lemma sample_loop_in_bounds (sp : simulation_parameters) (mode : Z) (G : R)
  (n : Z) :
  forall fuel ex a p,
    in_range a (order_index sp n) = true ->
    match sample_loop sp mode G fuel n ex (a, p) with
    | Returns (a', _) => length a' = length a
    | OutOfFuel => True
    | OutOfBounds => False
    end.
Proof.
  induction fuel as [|fuel IH]; intros ex a p Hj; simpl;
    destruct (Rlt_dec ex (x_max sp)); try exact I; try reflexivity.
  assert (Hstep : exists a1 p1,
             sample_body sp mode G n ex (a, p) = Returns (a1, p1)
             /\ length a1 = length a).
  { destruct (accumulator_cases mode)
      as [[_ Hacc] | [[_ Hacc] | (_ & _ & Hacc)]].
    - eexists; eexists. split;
        [apply (sample_body_accumulates sp mode G cos); assumption
        | apply set_nth_length].
    - eexists; eexists. split;
        [apply (sample_body_accumulates sp mode G sin); assumption
        | apply set_nth_length].
    - eexists; eexists. split;
        [apply sample_body_skips; assumption | reflexivity]. }
  destruct Hstep as (a1 & p1 & -> & Hlen). cbn [bind].
  specialize (IH (ex + sample_step sp) a1 p1).
  destruct (sample_loop sp mode G fuel n (ex + sample_step sp) (a1, p1))
    as [[a' p'] | |].
  - rewrite <- Hlen. apply IH. unfold in_range in *. rewrite Hlen. exact Hj.
  - exact I.
  - apply IH. unfold in_range in *. rewrite Hlen. exact Hj.
Qed.

Lemma order_loop_in_bounds (sp : simulation_parameters) (mode : Z) (G : R)
  (fuel : nat) :
  forall remaining n a p,
    (0 <= order_index sp n)%Z ->
    (order_index sp n + Z.of_nat remaining <= Z.of_nat (length a))%Z ->
    match order_loop sp mode G fuel remaining n (a, p) with
    | Returns (a', _) => length a' = length a
    | OutOfFuel => True
    | OutOfBounds => False
    end.
Proof.
  induction remaining as [|remaining IH]; intros n a p Hlo Hhi;
    [reflexivity|].
  cbn [order_loop].
  pose proof (sample_loop_in_bounds sp mode G n fuel (x_min sp) a p) as Hin.
  specialize (Hin ltac:(apply in_range_spec; lia)).
  destruct (sample_loop sp mode G fuel n (x_min sp) (a, p))
    as [[a1 p1] | |] eqn:Hsamples; cbn [bind];
    change (sample_loop sp mode G fuel n (x_min sp) (a, p))
      with (sample_loop sp mode G fuel n (x_min sp)
              ((a, p) : array * printed)) in Hin;
    rewrite Hsamples in Hin.
  - assert (Hlen : length a1 = length a) by exact Hin.
    assert (Hnext : order_index sp (n + 1) = (order_index sp n + 1)%Z)
      by (unfold order_index; lia).
    specialize (IH (n + 1)%Z a1 p1 ltac:(lia) ltac:(rewrite Hlen; lia)).
    destruct (order_loop sp mode G fuel remaining (n + 1) (a1, p1))
      as [[a' p'] | |] eqn:Hrest;
      change (order_loop sp mode G fuel remaining (n + 1) (a1, p1))
        with (order_loop sp mode G fuel remaining (n + 1)
                ((a1, p1) : array * printed)) in IH;
      rewrite Hrest in IH.
    + congruence.
    + exact I.
    + exact IH.
  - exact I.
  - exact Hin.
Qed.

(** X15.  On an array of [N >= 1] slots the function never reads or writes
    outside the array, whatever the parameters, the mode and the position:
    a call either returns an array of the same length or is still in its
    sample loop. *)
Theorem call_stays_in_bounds (sp : simulation_parameters) (a : array)
  (mode : Z) (z : R) (fuel : nat) :
  (1 <= number_of_rows_fourier_coefficient_array sp)%Z ->
  length a = Z.to_nat (number_of_rows_fourier_coefficient_array sp) ->
  in_bounds a (real_and_imaginary_arrays_generator sp fuel a mode z).
Proof.
  intros Hrows Hslots.
  destruct (half_width_bounds sp Hrows) as [Hh0 Hh1].
  unfold real_and_imaginary_arrays_generator.
  pose proof (order_loop_in_bounds sp mode (gravitational_phase sp z) fuel
                (Z.to_nat (half_width sp + 1 - - half_width sp))
                (- half_width sp)%Z a Indeterminate
                ltac:(unfold order_index; lia)
                ltac:(unfold order_index; lia)) as Hin.
  revert Hin.
  destruct (order_loop sp mode (gravitational_phase sp z) fuel
              (Z.to_nat (half_width sp + 1 - - half_width sp))
              (- half_width sp)%Z (a, Indeterminate))
    as [[a1 p1] | |] eqn:Horders; intros Hin; cbn [bind fst snd];
    match type of Horders with
    | ?run = _ =>
        match type of Hin with
        | context [match ?r with Returns _ => _ | _ => _ end] =>
            change r with run in Hin
        end
    end;
    rewrite Horders in Hin.
  - assert (Hlen : length a1 = length a) by exact Hin.
    replace (Z.to_nat (number_of_rows_fourier_coefficient_array sp))
      with (length a1) by congruence.
    rewrite normalization_loop_map. cbn [bind in_bounds].
    rewrite length_map. exact Hlen.
  - exact I.
  - exact Hin.
Qed.

Lemma call_stays_in_bounds_witness :
  in_bounds [0; 0; 0]
    (real_and_imaginary_arrays_generator
       (example_parameters 4 4 1 1 3) 2 [0; 0; 0] IMAGINARY 2).
Proof.
  apply (call_stays_in_bounds (example_parameters 4 4 1 1 3) [0; 0; 0]
           IMAGINARY 2 2).
  - cbn. lia.
  - reflexivity.
Defined.
